(** * Incremental fuzzy grouping of institution names (main.py)

    A shallow embedding of [fuzzy_grouping] from [main.py]: the pass that
    walks the distinct institution names of a data frame column in
    first-occurrence order and builds the dictionary [grouped_names] from
    every raw name to the name of its group, asking fuzzywuzzy's
    [process.extractOne] for the best match among the names grouped so far.

    Python's [dict] keeps insertion order and [list(grouped_names.keys())]
    is handed to the matcher in that order, so the dictionary is an
    association list, not an unordered finite map. *)

From Stdlib Require Import List String Ascii ZArith Lia Bool Arith.
From Stdlib Require Import Permutation Sorted.
Import ListNotations.

Local Open Scope string_scope.
Local Open Scope list_scope.

(** ** Insertion-ordered dictionaries with string keys *)

Module Dict.

Definition dict := list (string * string).

(** [d[k]]: the value stored under [k], [None] where Python raises
    [KeyError]. *)
Fixpoint get (k : string) (d : dict) : option string :=
  match d with
  | [] => None
  | (k', v) :: d' => if String.eqb k k' then Some v else get k d'
  end.

(** [d[k] = v]: an existing key keeps its position and takes the new
    value, a new key is appended at the end. *)
Fixpoint set (k v : string) (d : dict) : dict :=
  match d with
  | [] => [(k, v)]
  | (k', v') :: d' =>
      if String.eqb k k' then (k', v) :: d' else (k', v') :: set k v d'
  end.

(** [list(d.keys())] *)
Definition keys (d : dict) : list string := map fst d.

(** [d.values()] *)
Definition values (d : dict) : list string := map snd d.

(** Truth value of a dictionary: [if d:] holds when [d] has an entry. *)
Definition truthy (d : dict) : bool :=
  match d with
  | [] => false
  | _ :: _ => true
  end.

End Dict.

Import Dict.

(** ** The grouping pass *)

(** What the pass can raise: [extractOne] answers [None] on an empty list of
    choices and unpacking [match, score = None] is a [TypeError]; looking up
    a match that is no key of [grouped_names] is a [KeyError]. *)
Inductive error : Type :=
| TypeError
| KeyError.

(** One query of the matcher: the name looked for and the list of choices. *)
Definition call : Type := string * list string.

(** The outcome of a run: the matcher queries made, in order, and either the
    exception that stopped it or the dictionary built. *)
Definition outcome : Type := list call * (error + dict).

Section Grouping.

(** [process.extractOne(name, choices, scorer=fuzz.token_sort_ratio)]:
    the best choice with its score, [None] for no choice at all. *)
Variable extractOne : string -> list string -> option (string * Z).

Variable threshold : Z.

(** The body of [for name in names:] (main.py, lines 42-53). *)
Definition loop_body (name : string) (grouped_names : dict) : outcome :=
  if truthy grouped_names then
    let choices := keys grouped_names in
    match extractOne name choices with
    | None => ([(name, choices)], inl TypeError)
    | Some (match_, score) =>
        if (score >? threshold)%Z then
          match get match_ grouped_names with
          | None => ([(name, choices)], inl KeyError)
          | Some canonical =>
              ([(name, choices)], inr (set name canonical grouped_names))
          end
        else ([(name, choices)], inr (set name name grouped_names))
    end
  else ([], inr (set name name grouped_names)).

(** The [for] loop from a given dictionary, with the queries made so far. *)
Fixpoint for_loop (names : list string) (grouped_names : dict)
  (log : list call) : outcome :=
  match names with
  | [] => (log, inr grouped_names)
  | name :: rest =>
      match loop_body name grouped_names with
      | (asked, inr grouped_names') =>
          for_loop rest grouped_names' (log ++ asked)
      | (asked, inl e) => (log ++ asked, inl e)
      end
  end.

(** Lines 38-53: [grouped_names = {}] and the loop. *)
Definition group_names (names : list string) : outcome :=
  for_loop names [] [].

(** [Series.unique()]: the distinct values in order of first appearance. *)
Fixpoint unique_from (seen column : list string) : list string :=
  match column with
  | [] => []
  | x :: rest =>
      if existsb (String.eqb x) seen then unique_from seen rest
      else x :: unique_from (x :: seen) rest
  end.

Definition unique (column : list string) : list string :=
  unique_from [] column.

(** [fuzzy_grouping] on the column [dataframe[column_name]]: the new
    column ['Grouped Institution'], where [Series.map] with a dictionary
    leaves a missing value ([None]) for a value that is no key. *)
Definition fuzzy_grouping (column : list string)
  : list call * (error + list (option string)) :=
  match group_names (unique column) with
  | (log, inr grouped_names) =>
      (log, inr (map (fun x => get x grouped_names) column))
  | (log, inl e) => (log, inl e)
  end.

End Grouping.

(** ** Vocabulary of the specification *)

(** The group name the loop body gives to [name] when nothing is raised:
    its own, or the group name of the match when the score is above the
    threshold. *)
Definition chosen (extractOne : string -> list string -> option (string * Z))
  (threshold : Z) (name : string) (grouped_names : dict) : option string :=
  if truthy grouped_names then
    match extractOne name (keys grouped_names) with
    | None => None
    | Some (match_, score) =>
        if (score >? threshold)%Z then get match_ grouped_names
        else Some name
    end
  else Some name.

(** A canonical name of a dictionary: a key grouped under itself. *)
Definition canonicals (d : dict) : list string :=
  map fst (filter (fun kv => String.eqb (fst kv) (snd kv)) d).

(** The number of clusters: the number of distinct group names in use. *)
Definition cluster_count (d : dict) : nat :=
  List.length (nodup string_dec (values d)).

(** Every group name is a key grouped under itself. *)
Definition fixed_points (d : dict) : Prop :=
  forall k v, get k d = Some v -> get v d = Some v.

(** The queries of a run over distinct names that raises nothing: every name
    after the first is looked up among all the names before it. *)
Fixpoint calls_from (seen names : list string) : list call :=
  match names with
  | [] => []
  | n :: rest =>
      match seen with
      | [] => calls_from [n] rest
      | _ :: _ => (n, seen) :: calls_from (seen ++ [n]) rest
      end
  end.

(** At every step after the first, the matcher is asked about the name among
    [select] of the dictionary built over the names before it. *)
Definition queries_against (select : dict -> list string)
  (extractOne : string -> list string -> option (string * Z))
  (threshold : Z) (names : list string) : Prop :=
  forall pre n post,
    names = pre ++ n :: post -> pre <> [] ->
    exists log gpre,
      group_names extractOne threshold pre = (log, inr gpre)
      /\ fst (group_names extractOne threshold (pre ++ [n]))
         = log ++ [(n, select gpre)].

(** A query that respects the matcher's contract: some choice is given. *)
Definition nonempty_choices (c : call) : Prop := snd c <> [].

(** What [extractOne] guarantees on a list of choices that is not empty: an
    answer, whose match is one of the choices. *)
Definition oracle_ok (extractOne : string -> list string -> option (string * Z))
  : Prop :=
  forall query choices, choices <> [] ->
    exists m s, extractOne query choices = Some (m, s) /\ In m choices.

(** ** The matcher *)

(** Modelled from the spec: fuzzywuzzy's [process.extractOne] with the
    scorer [fuzz.token_sort_ratio], which main.py imports and which is no
    part of the repository. The specification describes it as comparing
    the two strings "after splitting into tokens, sorting tokens
    alphabetically, and measuring edit-distance-based similarity on the
    reconstructed strings", with a score in [0,100], a comparison that is
    case-insensitive, and the single highest-scoring choice returned. Here
    the similarity of the two reconstructed strings, of lengths [l1] and
    [l2] and at insertion-deletion distance [d], is [100 * (l1 + l2 - d) /
    (l1 + l2)] rounded to the nearest integer, and among equal scores the
    earliest choice wins, as with Python's [max]. *)
Module Fuzz.

Definition is_space (c : ascii) : bool :=
  let n := nat_of_ascii c in
  ((n =? 32) || ((9 <=? n) && (n <=? 13)))%nat.

Definition lower (c : ascii) : ascii :=
  let n := nat_of_ascii c in
  if ((65 <=? n) && (n <=? 90))%nat then ascii_of_nat (n + 32) else c.

Fixpoint lower_case (s : string) : string :=
  match s with
  | EmptyString => EmptyString
  | String c s' => String (lower c) (lower_case s')
  end.

(** [s.split()]: the maximal runs of characters that are not white space;
    [cur] is the run being read, reversed. *)
Fixpoint split_from (cur : list ascii) (s : string) : list string :=
  let flush :=
    match cur with
    | [] => []
    | _ :: _ => [string_of_list_ascii (rev cur)]
    end in
  match s with
  | EmptyString => flush
  | String c s' =>
      if is_space c then flush ++ split_from [] s'
      else split_from (c :: cur) s'
  end.

Definition split (s : string) : list string := split_from [] s.

(** [sorted(tokens)] *)
Fixpoint insert (t : string) (ts : list string) : list string :=
  match ts with
  | [] => [t]
  | u :: ts' => if String.leb t u then t :: ts else u :: insert t ts'
  end.

Definition sorted (ts : list string) : list string :=
  fold_right insert [] ts.

(** [" ".join(tokens)] *)
Fixpoint join (ts : list string) : string :=
  match ts with
  | [] => EmptyString
  | [t] => t
  | t :: ts' => (t ++ " " ++ join ts')%string
  end.

Definition process_and_sort (s : string) : string :=
  join (sorted (split (lower_case s))).

(** One row of the edit-distance table from the row above it: [diag] and
    [prev] are the cells above-left and above, [left] the cell just
    filled. *)
Fixpoint row_step (x : ascii) (b : list ascii) (diag : nat)
  (prev : list nat) (left : nat) : list nat :=
  match b, prev with
  | y :: b', up :: prev' =>
      let cell := if Ascii.eqb x y then diag else S (Nat.min up left) in
      cell :: row_step x b' up prev' cell
  | _, _ => []
  end.

Definition next_row (b : list ascii) (prev : list nat) (x : ascii)
  : list nat :=
  match prev with
  | [] => []
  | d :: prev' => S d :: row_step x b d prev' (S d)
  end.

(** The number of insertions and deletions that turn [a] into [b]. *)
Definition distance (a b : string) : nat :=
  let la := list_ascii_of_string a in
  let lb := list_ascii_of_string b in
  last (fold_left (next_row lb) la (seq 0 (S (List.length lb)))) 0.

(** [fuzz.ratio] on the reconstructed strings. *)
Definition ratio (a b : string) : Z :=
  let total := Z.of_nat (String.length a + String.length b) in
  if (total =? 0)%Z then 100%Z
  else
    let same := (total - Z.of_nat (distance a b))%Z in
    ((200 * same + total) / (2 * total))%Z.

Definition token_sort_ratio (s1 s2 : string) : Z :=
  ratio (process_and_sort s1) (process_and_sort s2).

(** [max(scored, key=lambda i: i[1])]: the first of the best. *)
Fixpoint best (scored : list (string * Z)) : option (string * Z) :=
  match scored with
  | [] => None
  | (c, s) :: rest =>
      match best rest with
      | Some (c', s') => if (s <? s')%Z then Some (c', s') else Some (c, s)
      | None => Some (c, s)
      end
  end.

Definition extractOne (query : string) (choices : list string)
  : option (string * Z) :=
  best (map (fun c => (c, token_sort_ratio query c)) choices).

End Fuzz.

(** A matcher that gives every query the same score and the first choice:
    the stub matchers of the specification's scenarios. *)
Definition constant_oracle (score : Z) (query : string)
  (choices : list string) : option (string * Z) :=
  match choices with
  | [] => None
  | c :: _ => Some (c, score)
  end.

Definition stanford : list string :=
  ["Stanford University"; "stanford university"; "MIT"].

Definition berkeley : list string :=
  ["University of California Berkeley"; "Berkeley University of California"].

(** ** Strings as [save_csv] cleans them *)

(** Python's [str] methods used by [save_csv], on ASCII text: a string is
    its list of characters, each below 128. On other characters Python
    knows more white space and more letters than these definitions; what
    is proved of a cleaned cell below is proved of ASCII cells. *)
Module Str.

(** [s.isascii()] *)
Definition isascii_char (c : ascii) : bool :=
  (nat_of_ascii c <? 128)%nat.

Fixpoint isascii (s : string) : bool :=
  match s with
  | EmptyString => true
  | String c s' => isascii_char c && isascii s'
  end.

(** [c.isspace()] for an ASCII character: tab, line feed, vertical tab, form
    feed, carriage return, the four separators 28-31 and the space. *)
Definition isspace (c : ascii) : bool :=
  let n := nat_of_ascii c in
  (((9 <=? n) && (n <=? 13)) || ((28 <=? n) && (n <=? 32)))%nat.

Definition upper_char (c : ascii) : ascii :=
  let n := nat_of_ascii c in
  if ((97 <=? n) && (n <=? 122))%nat then ascii_of_nat (n - 32) else c.

Definition lower_char (c : ascii) : ascii :=
  let n := nat_of_ascii c in
  if ((65 <=? n) && (n <=? 90))%nat then ascii_of_nat (n + 32) else c.

(** [s.upper()] *)
Fixpoint upper (s : string) : string :=
  match s with
  | EmptyString => EmptyString
  | String c s' => String (upper_char c) (upper s')
  end.

(** [s.lower()] *)
Fixpoint lower (s : string) : string :=
  match s with
  | EmptyString => EmptyString
  | String c s' => String (lower_char c) (lower s')
  end.

(** [s.lstrip()] *)
Fixpoint lstrip (s : string) : string :=
  match s with
  | EmptyString => EmptyString
  | String c s' => if isspace c then lstrip s' else s
  end.

(** [s.rstrip()] *)
Fixpoint rstrip (s : string) : string :=
  match s with
  | EmptyString => EmptyString
  | String c s' =>
      match rstrip s' with
      | EmptyString => if isspace c then EmptyString else String c EmptyString
      | r => String c r
      end
  end.

(** [s.strip()] *)
Definition strip (s : string) : string := rstrip (lstrip s).

(** [s.capitalize()]: the first character in upper case, the others in
    lower case. *)
Definition capitalize (s : string) : string :=
  match s with
  | EmptyString => EmptyString
  | String c s' => String (upper_char c) (lower s')
  end.

End Str.

(** The dictionary [state_abbreviations] (main.py, lines 12-26). *)
Definition state_abbreviations : dict :=
  [("AL", "Alabama"); ("AK", "Alaska"); ("AZ", "Arizona"); ("AR", "Arkansas");
   ("CA", "California"); ("CO", "Colorado"); ("CT", "Connecticut");
   ("DE", "Delaware");
   ("FL", "Florida"); ("GA", "Georgia"); ("HI", "Hawaii"); ("ID", "Idaho");
   ("IL", "Illinois"); ("IN", "Indiana"); ("IA", "Iowa"); ("KS", "Kansas");
   ("KY", "Kentucky"); ("LA", "Louisiana"); ("ME", "Maine"); ("MD", "Maryland");
   ("MA", "Massachusetts"); ("MI", "Michigan"); ("MN", "Minnesota");
   ("MS", "Mississippi");
   ("MO", "Missouri"); ("MT", "Montana"); ("NE", "Nebraska"); ("NV", "Nevada");
   ("NH", "New Hampshire"); ("NJ", "New Jersey"); ("NM", "New Mexico");
   ("NY", "New York");
   ("NC", "North Carolina"); ("ND", "North Dakota"); ("OH", "Ohio");
   ("OK", "Oklahoma");
   ("OR", "Oregon"); ("PA", "Pennsylvania"); ("RI", "Rhode Island");
   ("SC", "South Carolina");
   ("SD", "South Dakota"); ("TN", "Tennessee"); ("TX", "Texas"); ("UT", "Utah");
   ("VT", "Vermont"); ("VA", "Virginia"); ("WA", "Washington");
   ("WV", "West Virginia");
   ("WI", "Wisconsin"); ("WY", "Wyoming")].

(** The [lambda] of line 93:
    [state_abbreviations[x.upper()]
       if x.upper() in state_abbreviations and len(x) == 2 else x]. *)
Definition expand_state (x : string) : string :=
  match get (Str.upper x) state_abbreviations with
  | Some full => if (String.length x =? 2)%nat then full else x
  | None => x
  end.

(** [Series.fillna('Unknown')] on one cell (line 86). *)
Definition fillna (cell : option string) : string :=
  match cell with
  | Some s => s
  | None => "Unknown"
  end.

(** A cell of the column 'State/Province' through lines 86 and 92-93. *)
Definition clean_state (cell : option string) : string :=
  expand_state (Str.strip (fillna cell)).

(** A cell of any other text column but 'Country' and 'Advisor' through
    line 96: [.str.strip().str.capitalize()]. *)
Definition clean_text (s : string) : string :=
  Str.capitalize (Str.strip s).

(** ** The tables of [save_csv] *)

(** A record of the CSV file, by its required columns; the table has no
    missing value outside 'State/Province', the one column whose missing
    values [save_csv] fills. *)
Record row : Type := {
  Institution : string;
  City : string;
  State_Province : option string;
  Country : string;
  Team_Number : Z;
  Advisor : string;
  Problem : string;
  Ranking : string
}.

(** What [pd.read_csv] yields: the header and the records. *)
Record DataFrame : Type := {
  columns : list string;
  rows : list row
}.

Definition required_columns : list string :=
  ["Institution"; "City"; "State/Province"; "Country"; "Team Number";
   "Advisor"; "Problem"; "Ranking"].

(** [required_columns - set(data_2015.columns)] (line 78). *)
Definition missing_columns (header : list string) : list string :=
  filter (fun c => negb (existsb (String.eqb c) header)) required_columns.

(** [required_columns.issubset(data_2015.columns)] (line 77). *)
Definition issubset (required header : list string) : bool :=
  forallb (fun c => existsb (String.eqb c) header) required.

(** A record of [data_2015] after lines 83-96: grouped, then cleaned.
    'Grouped Institution' is missing ([None]) where [Series.map] found no
    key. *)
Record cleaned : Type := {
  c_Institution : string;
  c_City : string;
  c_State_Province : string;
  c_Country : string;
  c_Team_Number : Z;
  c_Advisor : string;
  c_Problem : string;
  c_Ranking : string;
  c_Grouped_Institution : option string
}.

(** Lines 86-96 on one record: 'Country' and 'Advisor' are left alone,
    'State/Province' is filled, stripped and expanded, the other text
    columns, 'Grouped Institution' among them, are stripped and
    capitalized. *)
Definition clean_row (r : row) (grouped : option string) : cleaned :=
  {| c_Institution := clean_text (Institution r);
     c_City := clean_text (City r);
     c_State_Province := clean_state (State_Province r);
     c_Country := Country r;
     c_Team_Number := Team_Number r;
     c_Advisor := Advisor r;
     c_Problem := clean_text (Problem r);
     c_Ranking := clean_text (Ranking r);
     c_Grouped_Institution := option_map clean_text grouped |}.

(** The table Institutions.csv (lines 99-105). *)
Record institution : Type := {
  Institution_ID : nat;
  Institution_Name : option string;
  i_City : string;
  i_State_Province : string;
  i_Country : string
}.

(** The table Teams.csv (lines 112-116); 'Institution ID' is missing where
    the left merge found no institution. *)
Record team : Type := {
  t_Team_Number : Z;
  t_Advisor : string;
  t_Problem : string;
  t_Ranking : string;
  t_Grouped_Institution : option string;
  t_Institution_ID : option nat
}.

(** Equality of two cells of 'Grouped Institution'; pandas takes two
    missing values for equal in [drop_duplicates] and [merge]. *)
Definition same_name (a b : option string) : bool :=
  match a, b with
  | Some x, Some y => String.eqb x y
  | None, None => true
  | _, _ => false
  end.

(** [drop_duplicates(subset=['Grouped Institution'])]: the first record of
    every name, in order. *)
Fixpoint drop_duplicates_from (seen : list (option string))
  (data : list cleaned) : list cleaned :=
  match data with
  | [] => []
  | c :: rest =>
      if existsb (same_name (c_Grouped_Institution c)) seen
      then drop_duplicates_from seen rest
      else c :: drop_duplicates_from (c_Grouped_Institution c :: seen) rest
  end.

Definition drop_duplicates (data : list cleaned) : list cleaned :=
  drop_duplicates_from [] data.

(** Lines 102-105: the fresh index 0, 1, 2, ... becomes 'Institution ID'. *)
Fixpoint reset_index_from (i : nat) (data : list cleaned) : list institution :=
  match data with
  | [] => []
  | c :: rest =>
      {| Institution_ID := i;
         Institution_Name := c_Grouped_Institution c;
         i_City := c_City c;
         i_State_Province := c_State_Province c;
         i_Country := c_Country c |} :: reset_index_from (S i) rest
  end.

Definition institutions_of (data : list cleaned) : list institution :=
  reset_index_from 0 (drop_duplicates data).

Definition team_of (c : cleaned) (id : option nat) : team :=
  {| t_Team_Number := c_Team_Number c;
     t_Advisor := c_Advisor c;
     t_Problem := c_Problem c;
     t_Ranking := c_Ranking c;
     t_Grouped_Institution := c_Grouped_Institution c;
     t_Institution_ID := id |}.

(** Lines 113-116: the left merge on 'Grouped Institution' = 'Institution
    Name'. Every record of the left table gives one record per matching
    institution, or one with a missing identifier when none matches. *)
Definition merge_teams (data : list cleaned) (institutions : list institution)
  : list team :=
  flat_map
    (fun c =>
       match filter (fun i => same_name (c_Grouped_Institution c)
                                (Institution_Name i)) institutions with
       | [] => [team_of c None]
       | found => map (fun i => team_of c (Some (Institution_ID i))) found
       end)
    data.

(** The identifier under which a name is listed in Institutions.csv. *)
Definition institution_id (institutions : list institution)
  (name : option string) : option nat :=
  option_map Institution_ID
    (find (fun i => same_name name (Institution_Name i)) institutions).

Section SaveCsv.

Variable extractOne : string -> list string -> option (string * Z).

(** [data_2015] after lines 83-96, or what [fuzzy_grouping] raised; the call
    of line 83 leaves the threshold at its default, 89. *)
Definition cleaned_data (data : list row) : error + list cleaned :=
  match fuzzy_grouping extractOne 89 (map Institution data) with
  | (_, inl e) => inl e
  | (_, inr grouped) => inr (map (fun rg => clean_row (fst rg) (snd rg))
                               (combine data grouped))
  end.

(** [save_csv], from what [pd.read_csv] gave ([None] when it raised): the
    exception raised, or the value returned, which is [None] after a failed
    load or a missing column and the pair of tables otherwise. The tables
    written to Institutions.csv and Teams.csv are those returned; writing
    them is taken to succeed. *)
Definition save_csv (loaded : option DataFrame)
  : error + option (list team * list institution) :=
  match loaded with
  | None => inr None
  | Some data_2015 =>
      if negb (issubset required_columns (columns data_2015)) then inr None
      else
        match cleaned_data (rows data_2015) with
        | inl e => inl e
        | inr data =>
            let institutions := institutions_of data in
            inr (Some (merge_teams data institutions, institutions))
        end
  end.

End SaveCsv.

(** ** The statistics of [get_statistical_analysis_file] *)

(** What the program can raise beyond the grouping pass: [ValueError] when a
    missing value is converted to an integer, [EOFError] when [input] finds
    no line to read. *)
Inductive exception : Type :=
| Error (e : error)
| ValueError
| EOFError.

(** [teams_df['Institution ID'].astype(int)] (line 130): every record with
    its identifier as an integer, [None] where a missing identifier makes
    the conversion raise. *)
Fixpoint astype_int (teams : list team) : option (list (nat * team)) :=
  match teams with
  | [] => Some []
  | t :: rest =>
      match t_Institution_ID t, astype_int rest with
      | Some i, Some typed => Some ((i, t) :: typed)
      | _, _ => None
      end
  end.

(** The distinct identifiers, in order of first appearance. *)
Fixpoint distinct_from (seen ids : list nat) : list nat :=
  match ids with
  | [] => []
  | i :: rest =>
      if existsb (Nat.eqb i) seen then distinct_from seen rest
      else i :: distinct_from (i :: seen) rest
  end.

Definition distinct (ids : list nat) : list nat := distinct_from [] ids.

(** [groupby('Institution ID')['Team Number'].nunique()]: for every
    institution, the number of distinct team numbers. *)
Definition nunique_per_institution (teams : list (nat * team)) : list nat :=
  map (fun i =>
         List.length
           (nodup Z.eq_dec
              (map (fun it => t_Team_Number (snd it))
                 (filter (fun it => Nat.eqb (fst it) i) teams))))
      (distinct (map fst teams)).

(** [int(... .mean())] (line 133): the mean of no value is not a number and
    its conversion raises; otherwise the integer part of the mean. The mean
    of pandas is a floating-point quotient, whose integer part is that of
    the exact quotient for any table of fewer than 2^53 records. *)
Definition avg_teams_per_institution (teams : list (nat * team))
  : option nat :=
  match nunique_per_institution teams with
  | [] => None
  | counts => Some (list_sum counts / List.length counts)
  end.

(** [sort_values(by='Number of Teams', ascending=False)]: by insertion, so
    that equal counts keep their order. pandas leaves the order of equal
    counts to its sorting routine. *)
Fixpoint insert_by_count {A : Type} (x : A * nat) (l : list (A * nat))
  : list (A * nat) :=
  match l with
  | [] => [x]
  | y :: l' =>
      if (snd y <=? snd x)%nat then x :: l else y :: insert_by_count x l'
  end.

Definition sort_by_count {A : Type} (l : list (A * nat)) : list (A * nat) :=
  fold_right insert_by_count [] l.

(** [teams_df['Institution ID'].value_counts().reset_index()] (line 137). *)
Definition value_counts (ids : list nat) : list (nat * nat) :=
  sort_by_count (map (fun i => (i, count_occ Nat.eq_dec ids i)) (distinct ids)).

(** [institutions_teams_count.merge(institutions_df, on='Institution ID')]:
    the inner merge, in the order of the counts. *)
Definition merge_counts (counts : list (nat * nat))
  (institutions : list institution) : list (institution * nat) :=
  flat_map
    (fun ic =>
       map (fun inst => (inst, snd ic))
         (filter (fun inst => Nat.eqb (Institution_ID inst) (fst ic))
            institutions))
    counts.

(** Lines 137-142: the table Top_Institutions.csv. *)
Definition top_institutions (teams : list (nat * team))
  (institutions : list institution) : list (institution * nat) :=
  sort_by_count (merge_counts (value_counts (map fst teams)) institutions).

(** The order of [sort_values(by='Institution Name')]: ascending, a missing
    name last. *)
Definition name_leb (a b : option string) : bool :=
  match a, b with
  | Some x, Some y => String.leb x y
  | Some _, None => true
  | None, Some _ => false
  | None, None => true
  end.

Fixpoint insert_by_name (x : institution) (l : list institution)
  : list institution :=
  match l with
  | [] => [x]
  | y :: l' =>
      if name_leb (Institution_Name x) (Institution_Name y) then x :: l
      else y :: insert_by_name x l'
  end.

Definition sort_by_name (l : list institution) : list institution :=
  fold_right insert_by_name [] l.

(** Line 145: the identifiers of the institutions with an outstanding
    team. *)
Definition outstanding_institutions (teams : list (nat * team)) : list nat :=
  distinct
    (map fst
       (filter (fun it => String.eqb (t_Ranking (snd it)) "Outstanding winner")
          teams)).

(** Lines 146-147: the table Outstanding_Institutions.csv. *)
Definition outstanding_institutions_list (teams : list (nat * team))
  (institutions : list institution) : list institution :=
  sort_by_name
    (filter (fun inst => existsb (Nat.eqb (Institution_ID inst))
                           (outstanding_institutions teams))
       institutions).

(** Lines 150-151: the left merge with the institutions' countries. *)
Definition team_df_with_country (teams : list (nat * team))
  (institutions : list institution) : list (nat * team * option string) :=
  flat_map
    (fun it =>
       match filter (fun inst => Nat.eqb (fst it) (Institution_ID inst))
               institutions with
       | [] => [(it, None)]
       | found => map (fun inst => (it, Some (i_Country inst))) found
       end)
    teams.

(** Lines 154-155: the table US_Teams_Meritorious_or_Better.csv. *)
Definition us_teams_meritorious_or_better (teams : list (nat * team))
  (institutions : list institution) : list (nat * team * option string) :=
  filter
    (fun itc =>
       match snd itc with
       | Some country => String.eqb country "USA"
       | None => false
       end
       && existsb (String.eqb (t_Ranking (snd (fst itc))))
            ["Outstanding winner"; "Meritorious"])
    (team_df_with_country teams institutions).

(** What [get_statistical_analysis_file] prints (the average) and writes
    (the three tables); writing them is taken to succeed. *)
Record report : Type := {
  r_average : nat;
  r_outstanding : list institution;
  r_top : list (institution * nat);
  r_us_teams : list (nat * team * option string)
}.

Definition get_statistical_analysis_file (teams_df : list team)
  (institutions_df : list institution) : exception + report :=
  match astype_int teams_df with
  | None => inl ValueError
  | Some teams =>
      match avg_teams_per_institution teams with
      | None => inl ValueError
      | Some average =>
          inr {| r_average := average;
                 r_outstanding :=
                   outstanding_institutions_list teams institutions_df;
                 r_top := top_institutions teams institutions_df;
                 r_us_teams :=
                   us_teams_meritorious_or_better teams institutions_df |}
      end
  end.

(** ** The command loop *)

Section Main.

Variable extractOne : string -> list string -> option (string * Z).

(** The files: what [pd.read_csv] gives for a path, [None] where it
    raises. *)
Variable read_csv : string -> option DataFrame.

(** [teams_df, institutions_df = save_csv(file_path)] followed by
    [get_statistical_analysis_file(teams_df, institutions_df)]; unpacking
    the [None] that [save_csv] returns after a failure is a [TypeError]. *)
Definition process (file_path : string) : exception + report :=
  match save_csv extractOne (read_csv file_path) with
  | inl e => inl (Error e)
  | inr None => inl (Error TypeError)
  | inr (Some (teams_df, institutions_df)) =>
      get_statistical_analysis_file teams_df institutions_df
  end.

(** [main] on the lines typed at the prompt: the paths processed with their
    reports, in order, and how the loop ended. *)
Fixpoint main (inputs : list string)
  : list (string * report) * (exception + unit) :=
  match inputs with
  | [] => ([], inl EOFError)
  | file_location :: rest =>
      if String.eqb file_location "1" then
        match process "data/2015.csv" with
        | inl e => ([], inl e)
        | inr r => ([("data/2015.csv", r)], inr tt)
        end
      else if String.eqb file_location "2" then ([], inr tt)
      else
        match process file_location with
        | inl e => ([], inl e)
        | inr r =>
            let (done, ended) := main rest in
            ((file_location, r) :: done, ended)
        end
  end.

End Main.

(** ** A small table *)

Definition sample_rows : list row :=
  [ {| Institution := "Stanford University"; City := "stanford";
       State_Province := Some "ca"; Country := "USA"; Team_Number := 101;
       Advisor := "Ann Lee"; Problem := "a";
       Ranking := "outstanding WINNER" |};
    {| Institution := "MIT"; City := "Cambridge";
       State_Province := Some " MA "; Country := "USA"; Team_Number := 102;
       Advisor := "Bo Chen"; Problem := "B"; Ranking := "Meritorious" |};
    {| Institution := "stanford university"; City := "Palo Alto";
       State_Province := None; Country := "US"; Team_Number := 103;
       Advisor := "Cy Diaz"; Problem := "A";
       Ranking := "Honorable mention" |};
    {| Institution := "MIT"; City := "Cambridge";
       State_Province := Some "Massachusetts"; Country := "USA";
       Team_Number := 104; Advisor := "Di Evans"; Problem := "B";
       Ranking := "Successful participant" |} ].

Definition sample_frame : DataFrame :=
  {| columns := ["Institution"; "Team Number"; "City"; "State/Province";
                 "Country"; "Advisor"; "Problem"; "Ranking"; "Notes"];
     rows := sample_rows |}.

Definition sample_files (path : string) : option DataFrame :=
  if String.eqb path "data/2015.csv" then Some sample_frame
  else if String.eqb path "empty.csv"
       then Some {| columns := required_columns; rows := [] |}
  else if String.eqb path "short.csv"
       then Some {| columns := ["Institution"; "City"]; rows := [] |}
  else None.

(** The two tables that [save_csv] returns on the small table. *)
Definition sample_tables : list team * list institution :=
  match save_csv Fuzz.extractOne (Some sample_frame) with
  | inr (Some tables) => tables
  | _ => ([], [])
  end.
(** ** Dictionaries: lookups and updates *)

Module DictFacts.

Lemma get_set_same k v d : get k (set k v d) = Some v.
Proof.
  induction d as [|[k' v'] d IH]; simpl.
  - now rewrite String.eqb_refl.
  - destruct (String.eqb k k') eqn:E; simpl; rewrite E; auto.
Qed.

Lemma get_set_other k k' v d : k' <> k -> get k' (set k v d) = get k' d.
Proof.
  intros Hne. induction d as [|[k0 v0] d IH]; simpl.
  - apply String.eqb_neq in Hne. now rewrite Hne.
  - destruct (String.eqb k k0) eqn:E; simpl.
    + apply String.eqb_eq in E. subst k0.
      apply String.eqb_neq in Hne. now rewrite Hne.
    + now rewrite IH.
Qed.

Lemma set_fresh k v d : ~ In k (keys d) -> set k v d = d ++ [(k, v)].
Proof.
  induction d as [|[k' v'] d IH]; simpl; intros Hk; auto.
  destruct (String.eqb k k') eqn:E.
  - apply String.eqb_eq in E. subst. tauto.
  - rewrite IH; tauto.
Qed.

Lemma get_keys k v d : get k d = Some v -> In k (keys d).
Proof.
  induction d as [|[k' v'] d IH]; simpl; try discriminate.
  destruct (String.eqb k k') eqn:E; intros H.
  - apply String.eqb_eq in E. auto.
  - auto.
Qed.

Lemma keys_get k d : In k (keys d) -> exists v, get k d = Some v.
Proof.
  induction d as [|[k' v'] d IH]; simpl; [tauto|].
  intros [->|H].
  - rewrite String.eqb_refl. eauto.
  - destruct (String.eqb k k'); eauto.
Qed.

Lemma get_fresh k d : ~ In k (keys d) -> get k d = None.
Proof.
  intros H. destruct (get k d) eqn:E; auto.
  apply get_keys in E. tauto.
Qed.

Lemma get_app_l k v d d' : get k d = Some v -> get k (d ++ d') = Some v.
Proof.
  induction d as [|[k' v'] d IH]; simpl; try discriminate.
  destruct (String.eqb k k'); auto.
Qed.

Lemma get_app_r k d d' : ~ In k (keys d) -> get k (d ++ d') = get k d'.
Proof.
  induction d as [|[k' v'] d IH]; simpl; auto.
  intros H. destruct (String.eqb k k') eqn:E.
  - apply String.eqb_eq in E. subst. tauto.
  - apply IH. tauto.
Qed.

Lemma get_In k v d : get k d = Some v -> In (k, v) d.
Proof.
  induction d as [|[k' v'] d IH]; simpl; try discriminate.
  destruct (String.eqb k k') eqn:E; intros H.
  - apply String.eqb_eq in E. left. congruence.
  - auto.
Qed.

Lemma In_get k v d : NoDup (keys d) -> In (k, v) d -> get k d = Some v.
Proof.
  induction d as [|[k' v'] d IH]; simpl; [tauto|].
  intros Hnd [H|H].
  - inversion H; subst. now rewrite String.eqb_refl.
  - inversion Hnd as [|? ? Hk Hnd']; subst.
    destruct (String.eqb k k') eqn:E.
    + apply String.eqb_eq in E. subst k'.
      exfalso. apply Hk. change k with (fst (k, v)). now apply in_map.
    + auto.
Qed.

Lemma keys_app d d' : keys (d ++ d') = keys d ++ keys d'.
Proof. apply map_app. Qed.

Lemma truthy_keys d : truthy d = true <-> keys d <> [].
Proof. destruct d; simpl; split; congruence. Qed.

End DictFacts.

Import DictFacts.

(** ** The loop, step by step *)

Section LoopFacts.

Variable extractOne : string -> list string -> option (string * Z).
Variable threshold : Z.

Local Abbreviation body := (loop_body extractOne threshold).
Local Abbreviation loop := (for_loop extractOne threshold).
Local Abbreviation pick := (chosen extractOne threshold).

Lemma loop_body_chosen n gn v :
  pick n gn = Some v ->
  body n gn =
    ((if truthy gn then [(n, keys gn)] else []), inr (set n v gn)).
Proof.
  unfold chosen, loop_body. destruct (truthy gn); [|now intros [= ->]].
  destruct (extractOne n (keys gn)) as [[m s]|]; try discriminate.
  destruct (s >? threshold)%Z; [|now intros [= ->]].
  now intros ->.
Qed.

Lemma chosen_ok n gn :
  oracle_ok extractOne -> fixed_points gn ->
  exists v, pick n gn = Some v /\ (v = n \/ get v gn = Some v).
Proof.
  intros Hok Hfix. unfold chosen.
  destruct (truthy gn) eqn:Ht; [|eauto].
  apply truthy_keys in Ht.
  destruct (Hok n (keys gn) Ht) as (m & s & -> & Hin).
  destruct (s >? threshold)%Z; [|eauto].
  destruct (keys_get _ _ Hin) as [c Hc].
  exists c. split; auto. right. eapply Hfix; eauto.
Qed.

Lemma fixed_points_snoc gn n v :
  fixed_points gn -> ~ In n (keys gn) ->
  v = n \/ get v gn = Some v ->
  fixed_points (gn ++ [(n, v)]).
Proof.
  intros Hfix Hn Hv k x Hk.
  assert (Hvv : get v (gn ++ [(n, v)]) = Some v).
  { destruct Hv as [->|Hv].
    - rewrite get_app_r by assumption. simpl. now rewrite String.eqb_refl.
    - now apply get_app_l. }
  destruct (get k gn) as [y|] eqn:E.
  - rewrite (get_app_l _ _ _ _ E) in Hk. injection Hk as <-.
    apply get_app_l. eapply Hfix; eauto.
  - rewrite get_app_r in Hk.
    + simpl in Hk. destruct (String.eqb k n); [|discriminate].
      now injection Hk as <-.
    + intros Hin. destruct (keys_get _ _ Hin) as [y Hy]. congruence.
Qed.

Lemma for_loop_app a b gn log :
  loop (a ++ b) gn log =
    match loop a gn log with
    | (l, inr g) => loop b g l
    | (l, inl e) => (l, inl e)
    end.
Proof.
  revert gn log. induction a as [|n a IH]; intros gn log; simpl.
  - reflexivity.
  - destruct (body n gn) as [asked [e|g]]; auto.
Qed.

(** From a dictionary of fixed points, over names that are new and
    distinct, the loop raises nothing, appends one entry per name and asks
    the matcher about each name among all the keys before it. *)
Lemma for_loop_ok :
  oracle_ok extractOne ->
  forall names gn log,
    NoDup (keys gn ++ names) -> fixed_points gn ->
    exists tail,
      loop names gn log = (log ++ calls_from (keys gn) names, inr (gn ++ tail))
      /\ keys tail = names
      /\ fixed_points (gn ++ tail).
Proof.
  intros Hok names. induction names as [|n rest IH]; intros gn log Hnd Hfix.
  - exists []. simpl. now rewrite !app_nil_r.
  - assert (Hn : ~ In n (keys gn)).
    { intros Hin. apply NoDup_remove_2 in Hnd. apply Hnd.
      apply in_or_app. now left. }
    destruct (chosen_ok n gn Hok Hfix) as (v & Hv & Hvv).
    simpl. rewrite (loop_body_chosen _ _ _ Hv), (set_fresh _ _ _ Hn).
    cbv beta iota.
    destruct (IH (gn ++ [(n, v)]) (log ++ if truthy gn then [(n, keys gn)] else []))
      as (tail & Hrun & Hkeys & Hfix').
    + rewrite keys_app. simpl. now rewrite <- app_assoc.
    + now apply fixed_points_snoc.
    + exists ((n, v) :: tail).
      rewrite <- app_assoc in Hfix'. simpl in Hfix'.
      split; [|split; [simpl; congruence | exact Hfix']].
      etransitivity; [exact Hrun|].
      rewrite keys_app, <- !app_assoc. simpl.
      destruct gn as [|[k0 v0] gn]; simpl; now rewrite ?app_nil_r.
Qed.

(** The run over distinct names, cut at any name [n]: the dictionary built
    over the names before [n], the group name chosen for [n] against it,
    and the entries of the later names after it. *)
Lemma group_names_split :
  oracle_ok extractOne ->
  forall pre n post,
    NoDup (pre ++ n :: post) ->
    exists gpre v gpost,
      group_names extractOne threshold pre = (calls_from [] pre, inr gpre)
      /\ keys gpre = pre
      /\ fixed_points gpre
      /\ pick n gpre = Some v
      /\ group_names extractOne threshold (pre ++ n :: post) =
           (calls_from [] (pre ++ n :: post), inr (gpre ++ (n, v) :: gpost))
      /\ keys gpost = post
      /\ fixed_points (gpre ++ (n, v) :: gpost).
Proof.
  intros Hok pre n post Hnd.
  assert (Hempty : fixed_points []) by (intros k v; discriminate).
  assert (Hpre : NoDup pre) by (now apply NoDup_app_remove_r in Hnd).
  destruct (for_loop_ok Hok pre [] [] Hpre Hempty) as (gpre & Hrun & Hk & Hfix).
  simpl in Hrun, Hk, Hfix.
  destruct (for_loop_ok Hok (pre ++ n :: post) [] [] Hnd Hempty)
    as (gall & Hall & Hkall & Hfixall).
  simpl in Hall, Hkall, Hfixall.
  assert (Hn : ~ In n (keys gpre)).
  { rewrite Hk. intros Hin. apply NoDup_remove_2 in Hnd. apply Hnd.
    apply in_or_app. now left. }
  destruct (chosen_ok n gpre Hok Hfix) as (v & Hv & Hvv).
  destruct (for_loop_ok Hok post (gpre ++ [(n, v)])
              (calls_from [] pre ++ if truthy gpre then [(n, keys gpre)] else []))
    as (gpost & Hpost & Hkpost & Hfixpost).
  { rewrite keys_app, Hk. simpl. now rewrite <- app_assoc. }
  { now apply fixed_points_snoc. }
  exists gpre, v, gpost.
  assert (Heq : gall = gpre ++ (n, v) :: gpost).
  { assert (Hcut : loop (pre ++ n :: post) [] [] = loop post (gpre ++ [(n, v)])
              (calls_from [] pre ++ if truthy gpre then [(n, keys gpre)] else [])).
    { rewrite for_loop_app, Hrun. simpl.
      now rewrite (loop_body_chosen _ _ _ Hv), (set_fresh _ _ _ Hn). }
    pose proof (eq_trans (eq_sym Hall) (eq_trans Hcut Hpost)) as Heq.
    injection Heq as _ ->. now rewrite <- app_assoc. }
  subst gall. unfold group_names. repeat split; auto.
Qed.

End LoopFacts.

(** ** The matcher model answers on every list of choices *)

Lemma best_In scored :
  scored <> [] -> exists c s, Fuzz.best scored = Some (c, s) /\ In (c, s) scored.
Proof.
  induction scored as [|[c s] rest IH]; [congruence|]. intros _. simpl.
  destruct rest as [|p rest'].
  - simpl. eauto.
  - destruct IH as (c' & s' & -> & Hin); [discriminate|].
    destruct (s <? s')%Z; eauto.
Qed.

Lemma fuzz_extractOne_ok : oracle_ok Fuzz.extractOne.
Proof.
  intros q cs Hcs. unfold Fuzz.extractOne.
  destruct (best_In (map (fun c => (c, Fuzz.token_sort_ratio q c)) cs))
    as (c & s & Hbest & Hin).
  - destruct cs; [congruence|discriminate].
  - exists c, s. split; auto.
    apply in_map_iff in Hin. destruct Hin as (x & [= -> _] & Hx). exact Hx.
Qed.

Lemma constant_oracle_ok score : oracle_ok (constant_oracle score).
Proof.
  intros q [|c cs] H; [congruence|]. exists c, score. simpl. auto.
Qed.

(** ** Distinct names of a column *)

Lemma unique_from_spec column :
  forall seen,
    NoDup (unique_from seen column)
    /\ (forall x, In x (unique_from seen column) <-> In x column /\ ~ In x seen).
Proof.
  induction column as [|x rest IH]; intros seen; simpl.
  - split; [constructor|]. tauto.
  - destruct (existsb (String.eqb x) seen) eqn:E.
    + apply existsb_exists in E. destruct E as (y & Hy & Hxy).
      apply String.eqb_eq in Hxy. subst y.
      destruct (IH seen) as [Hnd Hin]. split; auto.
      intros z. rewrite Hin. intuition (subst; tauto).
    + assert (Hx : ~ In x seen).
      { intros Hin.
        assert (existsb (String.eqb x) seen = true); [|congruence].
        apply existsb_exists. exists x. split; auto. apply String.eqb_refl. }
      destruct (IH (x :: seen)) as [Hnd Hin]. split.
      * constructor; auto. rewrite Hin. simpl. tauto.
      * intros z. simpl. rewrite Hin. simpl.
        destruct (string_dec x z) as [->|Hne]; tauto.
Qed.

Lemma unique_NoDup column : NoDup (unique column).
Proof. apply unique_from_spec. Qed.

Lemma unique_In column x : In x (unique column) <-> In x column.
Proof. unfold unique. rewrite (proj2 (unique_from_spec column [])). simpl. tauto. Qed.

(** ** Empty input and the matcher's precondition *)

(** C8. On an empty sequence of names the pass returns the empty mapping,
    asks the matcher nothing and raises nothing; the same holds of
    [fuzzy_grouping] on an empty column. *)
Theorem empty_input_empty_mapping
  (extractOne : string -> list string -> option (string * Z)) (threshold : Z) :
  group_names extractOne threshold [] = ([], inr [])
  /\ fuzzy_grouping extractOne threshold [] = ([], inr []).
Proof. split; reflexivity. Qed.

Section Precondition.

Variable extractOne : string -> list string -> option (string * Z).
Variable threshold : Z.

Lemma loop_body_asks_nonempty n gn :
  Forall nonempty_choices (fst (loop_body extractOne threshold n gn)).
Proof.
  unfold loop_body. destruct (truthy gn) eqn:Ht; [|constructor].
  apply truthy_keys in Ht.
  assert (H : Forall nonempty_choices [(n, keys gn)])
    by (constructor; [exact Ht | constructor]).
  destruct (extractOne n (keys gn)) as [[m s]|]; auto.
  destruct (s >? threshold)%Z; auto.
  destruct (get m gn); auto.
Qed.

Lemma loop_body_no_TypeError n gn :
  (forall q cs, cs <> [] -> extractOne q cs <> None) ->
  snd (loop_body extractOne threshold n gn) <> inl TypeError.
Proof.
  intros Hans. unfold loop_body. destruct (truthy gn) eqn:Ht; [|discriminate].
  apply truthy_keys in Ht. specialize (Hans n (keys gn) Ht).
  destruct (extractOne n (keys gn)) as [[m s]|]; [|congruence].
  destruct (s >? threshold)%Z; [|discriminate].
  destruct (get m gn); discriminate.
Qed.

Lemma for_loop_asks_nonempty names :
  forall gn log,
    Forall nonempty_choices log ->
    Forall nonempty_choices (fst (for_loop extractOne threshold names gn log)).
Proof.
  induction names as [|n rest IH]; intros gn log Hlog; simpl; auto.
  pose proof (loop_body_asks_nonempty n gn) as Hb.
  destruct (loop_body extractOne threshold n gn) as [asked [e|g]]; simpl in *.
  - apply Forall_app. auto.
  - apply IH. apply Forall_app. auto.
Qed.

Lemma for_loop_no_TypeError names :
  (forall q cs, cs <> [] -> extractOne q cs <> None) ->
  forall gn log,
    snd (for_loop extractOne threshold names gn log) <> inl TypeError.
Proof.
  intros Hans. induction names as [|n rest IH]; intros gn log; simpl.
  - discriminate.
  - pose proof (loop_body_no_TypeError n gn Hans) as Hb.
    destruct (loop_body extractOne threshold n gn) as [asked [e|g]]; simpl in *.
    + exact Hb.
    + apply IH.
Qed.

(** C9. Whatever the names, the matcher and the threshold, every query
    the pass makes carries a list of choices that is not empty; so, with
    a matcher that answers on every such list, the pass never ends in the
    [TypeError] of unpacking a missing answer. *)
Theorem oracle_precondition_respected (names : list string) :
  Forall nonempty_choices (fst (group_names extractOne threshold names))
  /\ ((forall q cs, cs <> [] -> extractOne q cs <> None) ->
      snd (group_names extractOne threshold names) <> inl TypeError).
Proof.
  split.
  - apply for_loop_asks_nonempty. constructor.
  - intros Hans. now apply for_loop_no_TypeError.
Qed.

End Precondition.

Lemma oracle_precondition_respected_witness :
  (forall q cs, cs <> [] -> constant_oracle 100 q cs <> None)
  /\ Forall nonempty_choices (fst (group_names (constant_oracle 100) 89 stanford))
  /\ snd (group_names (constant_oracle 100) 89 stanford) <> inl TypeError.
Proof.
  assert (Hans : forall q cs, cs <> [] -> constant_oracle 100 q cs <> None).
  { intros q [|c cs] H; [congruence | discriminate]. }
  split; [exact Hans|].
  destruct (oracle_precondition_respected (constant_oracle 100) 89 stanford)
    as [Hcalls Hrun].
  split; [exact Hcalls | exact (Hrun Hans)].
Defined.

(** ** A matcher that never scores above the threshold *)

Section NoMerge.

Variable extractOne : string -> list string -> option (string * Z).
Variable threshold : Z.
Variable score : Z.

Hypothesis score_low : (score <= threshold)%Z.
Hypothesis constant :
  forall q cs, cs <> [] -> exists m, extractOne q cs = Some (m, score).

Lemma loop_body_no_merge n gn :
  exists asked,
    loop_body extractOne threshold n gn = (asked, inr (set n n gn)).
Proof.
  unfold loop_body. destruct (truthy gn) eqn:Ht; [|eauto].
  apply truthy_keys in Ht. destruct (constant n (keys gn) Ht) as [m ->].
  replace (score >? threshold)%Z with false; [eauto|].
  symmetry. rewrite Z.gtb_ltb. apply Z.ltb_ge. exact score_low.
Qed.

Lemma for_loop_no_merge names :
  forall gn log,
    (forall k v, get k gn = Some v -> v = k) ->
    exists log' gn',
      for_loop extractOne threshold names gn log = (log', inr gn')
      /\ (forall k v, get k gn' = Some v ->
            v = k /\ (In k names \/ In k (keys gn)))
      /\ (forall k, In k names \/ In k (keys gn) -> get k gn' = Some k).
Proof.
  induction names as [|n rest IH]; intros gn log Hid; simpl.
  - exists log, gn. split; [reflexivity|]. split.
    + intros k v Hk. split; [eauto|]. right. eapply get_keys; eauto.
    + intros k [[]|Hk]. destruct (keys_get _ _ Hk) as [v Hv].
      now rewrite Hv, (Hid _ _ Hv).
  - destruct (loop_body_no_merge n gn) as [asked ->].
    destruct (IH (set n n gn) (log ++ asked)) as (log' & gn' & Hrun & Hval & Hkey).
    + intros k v. destruct (string_dec k n) as [->|Hne].
      * rewrite get_set_same. congruence.
      * rewrite get_set_other by assumption. apply Hid.
    + assert (Hkeys : forall k, In k (keys (set n n gn)) <-> k = n \/ In k (keys gn)).
      { intros k. split.
        - intros Hk. destruct (string_dec k n) as [->|Hne]; auto.
          destruct (keys_get _ _ Hk) as [v Hv].
          rewrite get_set_other in Hv by assumption.
          right. eapply get_keys; eauto.
        - intros [->|Hk].
          + eapply get_keys. apply get_set_same.
          + destruct (string_dec k n) as [->|Hne].
            * eapply get_keys. apply get_set_same.
            * destruct (keys_get _ _ Hk) as [v Hv].
              eapply get_keys. rewrite get_set_other; eauto. }
      exists log', gn'. split; [exact Hrun|]. split.
      * intros k v Hk. destruct (Hval k v Hk) as [-> Hin]. split; auto.
        rewrite Hkeys in Hin. intuition auto.
      * intros k Hk. apply Hkey. rewrite Hkeys. intuition auto.
Qed.

(** C6. With a matcher whose score is one constant that does not exceed
    the threshold (always 0, or always 50 under threshold 89), over any
    sequence of names and for any threshold (those of [0,100] among them)
    the pass raises nothing and maps every name to itself, and the
    mapping has no other entry. *)
Theorem constant_low_score_all_singletons (names : list string) :
  exists log gn,
    group_names extractOne threshold names = (log, inr gn)
    /\ (forall n, In n names -> get n gn = Some n)
    /\ (forall k v, get k gn = Some v -> v = k /\ In k names).
Proof.
  destruct (for_loop_no_merge names [] []) as (log & gn & Hrun & Hval & Hkey).
  - intros k v. discriminate.
  - exists log, gn. split; [exact Hrun|]. split.
    + intros n Hn. apply Hkey. now left.
    + intros k v Hk. destruct (Hval k v Hk) as [-> [Hin|[]]]. auto.
Qed.

End NoMerge.

Lemma constant_low_score_all_singletons_witness :
  (50 <= 89)%Z
  /\ (forall q cs, cs <> [] -> exists m, constant_oracle 50 q cs = Some (m, 50%Z))
  /\ exists log gn,
      group_names (constant_oracle 50) 89 ["A"; "B"] = (log, inr gn)
      /\ (forall n, In n ["A"; "B"] -> get n gn = Some n)
      /\ (forall k v, get k gn = Some v -> v = k /\ In k ["A"; "B"]).
Proof.
  assert (Hlow : (50 <= 89)%Z) by lia.
  assert (Hconst : forall q cs, cs <> [] ->
             exists m, constant_oracle 50 q cs = Some (m, 50%Z)).
  { intros q [|c cs] H; [congruence|]. exists c. reflexivity. }
  split; [exact Hlow|]. split; [exact Hconst|].
  exact (constant_low_score_all_singletons
           (constant_oracle 50) 89 50 Hlow Hconst ["A"; "B"]).
Defined.

(** Scenario 2 of the specification, evaluated. *)
Example scenario_two_singletons :
  group_names (constant_oracle 50) 89 ["A"; "B"]
  = ([("B", ["A"])], inr [("A", "A"); ("B", "B")]).
Proof. reflexivity. Qed.

(** ** Runs over distinct names *)

Lemma get_middle n v a b : ~ In n (keys a) -> get n (a ++ (n, v) :: b) = Some v.
Proof.
  intros H. rewrite get_app_r by assumption. simpl. now rewrite String.eqb_refl.
Qed.

Lemma NoDup_not_in_prefix (pre : list string) n post :
  NoDup (pre ++ n :: post) -> ~ In n pre.
Proof.
  intros Hnd Hin. apply NoDup_remove_2 in Hnd. apply Hnd.
  apply in_or_app. now left.
Qed.

Lemma NoDup_stanford : NoDup stanford.
Proof.
  unfold stanford.
  repeat (constructor; [simpl; intuition discriminate|]). constructor.
Qed.

Section DistinctNames.

Variable extractOne : string -> list string -> option (string * Z).
Variable threshold : Z.
Hypothesis answers : oracle_ok extractOne.

Local Abbreviation run := (group_names extractOne threshold).

(** The run over a prefix of distinct names and the run over all of them:
    the second extends the dictionary of the first. *)
Lemma group_names_prefix pre post :
  NoDup (pre ++ post) ->
  exists gpre tail,
    run pre = (calls_from [] pre, inr gpre)
    /\ keys gpre = pre
    /\ fixed_points gpre
    /\ run (pre ++ post) = (calls_from [] (pre ++ post), inr (gpre ++ tail))
    /\ keys tail = post
    /\ fixed_points (gpre ++ tail).
Proof.
  intros Hnd.
  assert (Hempty : fixed_points []) by (intros k v; discriminate).
  assert (Hpre : NoDup pre) by (now apply NoDup_app_remove_r in Hnd).
  destruct (for_loop_ok extractOne threshold answers pre [] [] Hpre Hempty)
    as (gpre & Hrun & Hk & Hfix).
  destruct (for_loop_ok extractOne threshold answers (pre ++ post) [] [] Hnd Hempty)
    as (gall & Hall & Hkall & Hfixall).
  simpl in Hrun, Hk, Hfix, Hall, Hkall, Hfixall.
  destruct (for_loop_ok extractOne threshold answers post gpre (calls_from [] pre))
    as (tail & Hpost & Hkpost & Hfixpost); auto.
  { now rewrite Hk. }
  exists gpre, tail.
  assert (Hcut : for_loop extractOne threshold (pre ++ post) [] []
                 = for_loop extractOne threshold post gpre (calls_from [] pre)).
  { now rewrite for_loop_app, Hrun. }
  pose proof (eq_trans (eq_sym Hall) (eq_trans Hcut Hpost)) as Heq.
  injection Heq as _ ->. unfold group_names. repeat split; auto.
Qed.

(** C5. Over distinct names the pass raises nothing and the keys of the
    mapping returned are the input names, in order: every input name is a
    key exactly once and there is no other key. Every input name has
    exactly one group name, no entry gives it another, and that group name
    is a canonical name: an input name that is grouped under itself. *)
Theorem output_mapping_total (names : list string) :
  NoDup names ->
  exists log gn,
    run names = (log, inr gn)
    /\ keys gn = names
    /\ (forall n, In n names ->
          count_occ string_dec (keys gn) n = 1
          /\ exists c,
               get n gn = Some c
               /\ (forall c', In (n, c') gn -> c' = c)
               /\ In c names
               /\ get c gn = Some c
               /\ In c (canonicals gn)).
Proof.
  intros Hnd.
  destruct (group_names_prefix names []) as (gn & tail & Hrun & Hk & Hfix & _).
  { now rewrite app_nil_r. }
  exists (calls_from [] names), gn.
  split; [exact Hrun|]. split; [exact Hk|].
  intros n Hn. split.
  - rewrite Hk. apply NoDup_count_occ'; assumption.
  - destruct (keys_get n gn) as [c Hc]; [now rewrite Hk|].
    pose proof (Hfix _ _ Hc) as Hcc.
    exists c. split; [exact Hc|]. split; [|split; [|split; [exact Hcc|]]].
    + intros c' Hin. apply In_get in Hin; [congruence|]. now rewrite Hk.
    + rewrite <- Hk. eapply get_keys; eauto.
    + unfold canonicals. apply in_map_iff. exists (c, c). split; [reflexivity|].
      apply filter_In. split; [now apply get_In|]. apply String.eqb_refl.
Qed.

(** C1, as the code has it. Over distinct names the pass raises nothing,
    and every name after the first is looked up among all the names
    processed before it, in input order: these are the keys of the
    dictionary built so far, the names that merged included, so the list
    of choices has one element per name processed so far. *)
Theorem queries_against_all_earlier_names (names : list string) :
  NoDup names ->
  queries_against keys extractOne threshold names
  /\ (forall pre n post gpre log,
        names = pre ++ n :: post ->
        run pre = (log, inr gpre) ->
        keys gpre = pre /\ List.length (keys gpre) = List.length pre)
  /\ fst (run names) = calls_from [] names.
Proof.
  intros Hnd. split; [|split].
  - intros pre n post -> Hpre.
    destruct (group_names_split extractOne threshold answers pre n post Hnd)
      as (gpre & v & gpost & Hrun & Hk & Hfix & Hv & _).
    exists (calls_from [] pre), gpre. split; [exact Hrun|].
    unfold group_names in *. rewrite for_loop_app, Hrun. simpl.
    rewrite (loop_body_chosen _ _ _ _ _ Hv). simpl.
    destruct gpre as [|kv gpre]; [simpl in Hk; congruence | reflexivity].
  - intros pre n post gpre log -> Hrun.
    destruct (group_names_prefix pre (n :: post) Hnd) as (g & tail & Hg & Hk & _).
    rewrite Hg in Hrun. injection Hrun as _ <-. now rewrite Hk.
  - destruct (group_names_prefix names []) as (gn & tail & Hrun & _).
    { now rewrite app_nil_r. }
    now rewrite Hrun.
Qed.

(** C4. Over distinct names, after every prefix of the input and at the
    end of the run every group name in the mapping is a key grouped
    under itself; an entry, once made, is the same at the end, so no
    group is renamed; and two names are in one group at the end exactly
    when they were when the later of them was processed: groups neither
    merge nor split. *)
Theorem canonical_fixed_point_invariant (names pre post : list string) :
  NoDup names -> names = pre ++ post ->
  exists logp gpre log gn,
    run pre = (logp, inr gpre)
    /\ run names = (log, inr gn)
    /\ fixed_points gpre
    /\ fixed_points gn
    /\ (forall k v, get k gpre = Some v -> get k gn = Some v)
    /\ (forall k k' v v',
          get k gpre = Some v -> get k' gpre = Some v' ->
          (v = v' <-> get k gn = get k' gn)).
Proof.
  intros Hnd ->.
  destruct (group_names_prefix pre post Hnd)
    as (gpre & tail & Hrun & Hk & Hfix & Hall & Hkt & Hfixall).
  exists (calls_from [] pre), gpre, (calls_from [] (pre ++ post)), (gpre ++ tail).
  repeat split; auto.
  - intros k v. apply get_app_l.
  - intros ->. now rewrite (get_app_l _ _ _ tail H), (get_app_l _ _ _ tail H0).
  - rewrite (get_app_l _ _ _ tail H), (get_app_l _ _ _ tail H0). congruence.
Qed.

(** The entry of [n] at the end of a run over distinct names is the one
    the loop body chose against the dictionary of the names before it. *)
Lemma group_names_entry pre n post :
  NoDup (pre ++ n :: post) ->
  exists gpre v log gn,
    run pre = (calls_from [] pre, inr gpre)
    /\ keys gpre = pre
    /\ fixed_points gpre
    /\ chosen extractOne threshold n gpre = Some v
    /\ run (pre ++ n :: post) = (log, inr gn)
    /\ fixed_points gn
    /\ get n gn = Some v.
Proof.
  intros Hnd.
  destruct (group_names_split extractOne threshold answers pre n post Hnd)
    as (gpre & v & gpost & Hrun & Hk & Hfix & Hv & Hall & _ & Hfixall).
  exists gpre, v, (calls_from [] (pre ++ n :: post)), (gpre ++ (n, v) :: gpost).
  repeat split; auto.
  apply get_middle. rewrite Hk. eapply NoDup_not_in_prefix; eauto.
Qed.

(** C3. In a run over distinct names, a name whose best match among the
    names before it scores exactly the threshold, or less, is grouped
    under itself; it is grouped under another name, the group name of the
    match, only when the score is strictly greater than the threshold. *)
Theorem score_at_threshold_does_not_merge
  (pre post : list string) (n m : string) (s : Z) :
  NoDup (pre ++ n :: post) -> pre <> [] ->
  extractOne n pre = Some (m, s) ->
  exists log gn,
    run (pre ++ n :: post) = (log, inr gn)
    /\ (s = threshold -> get n gn = Some n)
    /\ ((s <= threshold)%Z -> get n gn = Some n)
    /\ ((s > threshold)%Z ->
          exists c, get n gn = Some c /\ get m gn = Some c /\ c <> n)
    /\ (get n gn <> Some n -> (s > threshold)%Z).
Proof.
  intros Hnd Hpre Hm.
  destruct (group_names_prefix pre (n :: post) Hnd)
    as (gp & tail & Hgp & Hkp & _ & Hallp & _).
  destruct (group_names_entry pre n post Hnd)
    as (gpre & v & log & gn & Hrun & Hk & Hfix & Hv & Hall & Hfixall & Hn).
  assert (Hnot : ~ In n pre) by (eapply NoDup_not_in_prefix; eauto).
  unfold chosen in Hv. rewrite Hk, Hm in Hv.
  replace (truthy gpre) with true in Hv
    by (destruct gpre; [simpl in Hk; congruence | reflexivity]).
  exists log, gn. split; [exact Hall|].
  destruct (s >? threshold)%Z eqn:E.
  - apply Z.gtb_gt in E.
    assert (Hc : v <> n).
    { intros ->. apply Hfix, get_keys in Hv. rewrite Hk in Hv. tauto. }
    assert (Hmn : get m gn = Some v).
    { rewrite Hrun in Hgp. injection Hgp as <-.
      rewrite Hall in Hallp. injection Hallp as _ ->.
      now apply get_app_l. }
    split; [lia|]. split; [lia|]. split; [|auto].
    intros _. exists v. auto.
  - injection Hv as <-.
    assert (Hle : (s <= threshold)%Z).
    { rewrite Z.gtb_ltb in E. now apply Z.ltb_ge in E. }
    split; [auto|]. split; [auto|]. split; [lia|]. congruence.
Qed.

(** C10. In a run over distinct names, the group name of a name [n] is
    [n] itself or a name that occurs strictly earlier than [n] in the
    input, and that group name is grouped under itself: the name of every
    group is its first-seen member. *)
Theorem canonical_is_first_seen (pre post : list string) (n : string) :
  NoDup (pre ++ n :: post) ->
  exists log gn c,
    run (pre ++ n :: post) = (log, inr gn)
    /\ get n gn = Some c
    /\ get c gn = Some c
    /\ (c = n \/ In c pre)
    /\ (c <> n -> In c pre).
Proof.
  intros Hnd.
  destruct (group_names_entry pre n post Hnd)
    as (gpre & v & log & gn & Hrun & Hk & Hfix & Hv & Hall & Hfixall & Hn).
  destruct (chosen_ok extractOne threshold n gpre answers Hfix)
    as (v' & Hv' & Hvv).
  rewrite Hv in Hv'. injection Hv' as <-.
  assert (Hpos : v = n \/ In v pre).
  { destruct Hvv as [->|Hvv]; [now left|].
    right. rewrite <- Hk. eapply get_keys; eauto. }
  exists log, gn, v. repeat split; auto.
  - eapply Hfixall; eauto.
  - tauto.
Qed.

End DistinctNames.

(** ** Raising the threshold *)

Section Thresholds.

Variable extractOne : string -> list string -> option (string * Z).
Variables low high : Z.
Hypothesis answers : oracle_ok extractOne.
Hypothesis raised : (low <= high)%Z.

Lemma truthy_same_keys (g g' : dict) : keys g = keys g' -> truthy g = truthy g'.
Proof. destruct g, g'; simpl; congruence. Qed.

(** The list of choices does not depend on the threshold, so a name that
    stays alone under the lower threshold stays alone under the higher. *)
Lemma chosen_self_raised n g g' v :
  keys g = keys g' -> ~ In n (keys g) -> fixed_points g ->
  chosen extractOne low n g = Some n ->
  chosen extractOne high n g' = Some v ->
  v = n.
Proof.
  unfold chosen. intros Hk Hn Hfix. rewrite <- (truthy_same_keys _ _ Hk), <- Hk.
  destruct (truthy g); [|congruence].
  destruct (extractOne n (keys g)) as [[m s]|]; [|discriminate].
  destruct (s >? low)%Z eqn:El.
  - intros Hm. apply Hfix, get_keys in Hm. tauto.
  - intros _. replace (s >? high)%Z with false; [congruence|].
    symmetry. rewrite Z.gtb_ltb in *. apply Z.ltb_ge. apply Z.ltb_ge in El. lia.
Qed.

Lemma cluster_count_le (g g' : dict) :
  NoDup (keys g) -> fixed_points g ->
  (forall n, get n g = Some n -> get n g' = Some n) ->
  cluster_count g <= cluster_count g'.
Proof.
  intros Hnd Hfix Hself. unfold cluster_count.
  apply NoDup_incl_length; [apply NoDup_nodup|].
  intros x Hx. apply nodup_In in Hx. apply nodup_In.
  apply in_map_iff in Hx. destruct Hx as ([k v] & Hv & Hin). simpl in Hv. subst v.
  apply In_get in Hin; [|assumption].
  apply Hfix, Hself, get_In in Hin.
  change x with (snd (x, x)). now apply in_map.
Qed.

(** C2. For distinct names and one matcher, under a threshold raised
    from [low] to [high] both runs raise nothing, every name grouped under
    itself in the first is grouped under itself in the second, and the
    number of clusters does not go down. *)
Theorem threshold_monotone (names : list string) :
  NoDup names ->
  exists log gn log' gn',
    group_names extractOne low names = (log, inr gn)
    /\ group_names extractOne high names = (log', inr gn')
    /\ (forall n, get n gn = Some n -> get n gn' = Some n)
    /\ cluster_count gn <= cluster_count gn'.
Proof.
  intros Hnd.
  destruct (group_names_prefix extractOne low answers names [])
    as (gn & t & Hrun & Hk & Hfix & _); [now rewrite app_nil_r|].
  destruct (group_names_prefix extractOne high answers names [])
    as (gn' & t' & Hrun' & Hk' & Hfix' & _); [now rewrite app_nil_r|].
  assert (Hself : forall n, get n gn = Some n -> get n gn' = Some n).
  { intros n Hn.
    assert (Hin : In n names) by (rewrite <- Hk; eapply get_keys; eauto).
    destruct (in_split _ _ Hin) as (pre & post & ->).
    destruct (group_names_entry extractOne low answers pre n post Hnd)
      as (gp & v & l & g & Hp & Hkp & Hfp & Hv & Hall & _ & Hget).
    destruct (group_names_entry extractOne high answers pre n post Hnd)
      as (gp' & v' & l' & g' & Hp' & Hkp' & Hfp' & Hv' & Hall' & _ & Hget').
    rewrite Hrun in Hall. injection Hall as _ <-.
    rewrite Hrun' in Hall'. injection Hall' as _ <-.
    rewrite Hget in Hn. injection Hn as ->.
    rewrite Hget'. f_equal.
    apply (chosen_self_raised n gp gp' v'); auto; try congruence.
    rewrite Hkp. eapply NoDup_not_in_prefix; eauto. }
  exists (calls_from [] names), gn, (calls_from [] names), gn'.
  repeat split; auto.
  apply cluster_count_le; auto. now rewrite Hk.
Qed.

End Thresholds.

(** ** The scenarios of the specification, with the token-sort matcher *)

(** C7. With the token-sort-ratio matcher and threshold 89, the two
    orderings of the Berkeley name score 100 against each other and both
    are grouped under the first-seen one. *)
Theorem berkeley_reordering_merges :
  Fuzz.token_sort_ratio "Berkeley University of California"
    "University of California Berkeley" = 100%Z
  /\ group_names Fuzz.extractOne 89 berkeley
     = ([("Berkeley University of California",
          ["University of California Berkeley"])],
        inr [("University of California Berkeley",
              "University of California Berkeley");
             ("Berkeley University of California",
              "University of California Berkeley")])
  /\ fuzzy_grouping Fuzz.extractOne 89 berkeley
     = ([("Berkeley University of California",
          ["University of California Berkeley"])],
        inr [Some "University of California Berkeley";
             Some "University of California Berkeley"]).
Proof. repeat split; vm_compute; reflexivity. Qed.

(** Scenario 1 of the specification, evaluated: the second spelling of
    Stanford merges, and is then among the choices offered for "MIT". *)
Example scenario_stanford :
  group_names Fuzz.extractOne 89 stanford
  = ([("stanford university", ["Stanford University"]);
      ("MIT", ["Stanford University"; "stanford university"])],
     inr [("Stanford University", "Stanford University");
          ("stanford university", "Stanford University");
          ("MIT", "MIT")]).
Proof. vm_compute. reflexivity. Qed.

(** C1, as the specification states it, fails on the code: when "MIT" is
    processed the canonical names are ["Stanford University"] alone, and
    the matcher is asked about "MIT" among both spellings of Stanford. *)
Lemma stanford_query_holds_merged_name :
  NoDup stanford
  /\ fst (group_names Fuzz.extractOne 89 stanford)
     = [("stanford university", ["Stanford University"]);
        ("MIT", ["Stanford University"; "stanford university"])]
  /\ (exists log gpre,
        group_names Fuzz.extractOne 89
          ["Stanford University"; "stanford university"] = (log, inr gpre)
        /\ canonicals gpre = ["Stanford University"]
        /\ keys gpre = ["Stanford University"; "stanford university"])
  /\ ~ queries_against canonicals Fuzz.extractOne 89 stanford.
Proof.
  split; [exact NoDup_stanford|]. split; [vm_compute; reflexivity|]. split.
  - eexists _, _. split; [vm_compute; reflexivity|]. split; reflexivity.
  - intros H.
    destruct (H ["Stanford University"; "stanford university"] "MIT" [])
      as (log & gpre & Hrun & Hask); [reflexivity | discriminate |].
    vm_compute in Hrun. injection Hrun as <- <-.
    vm_compute in Hask. discriminate.
Qed.

(** ** Instances on the specification's first scenario *)

Lemma output_mapping_total_witness :
  NoDup stanford
  /\ exists log gn,
      group_names Fuzz.extractOne 89 stanford = (log, inr gn)
      /\ keys gn = stanford
      /\ (forall n, In n stanford ->
            count_occ string_dec (keys gn) n = 1
            /\ exists c,
                 get n gn = Some c
                 /\ (forall c', In (n, c') gn -> c' = c)
                 /\ In c stanford
                 /\ get c gn = Some c
                 /\ In c (canonicals gn)).
Proof.
  split; [exact NoDup_stanford|].
  exact (output_mapping_total Fuzz.extractOne 89 fuzz_extractOne_ok
           stanford NoDup_stanford).
Defined.

Lemma queries_against_all_earlier_names_witness :
  NoDup stanford
  /\ queries_against keys Fuzz.extractOne 89 stanford
  /\ (forall pre n post gpre log,
        stanford = pre ++ n :: post ->
        group_names Fuzz.extractOne 89 pre = (log, inr gpre) ->
        keys gpre = pre /\ List.length (keys gpre) = List.length pre)
  /\ fst (group_names Fuzz.extractOne 89 stanford) = calls_from [] stanford.
Proof.
  split; [exact NoDup_stanford|].
  exact (queries_against_all_earlier_names Fuzz.extractOne 89
           fuzz_extractOne_ok stanford NoDup_stanford).
Defined.

Lemma canonical_fixed_point_invariant_witness :
  NoDup stanford
  /\ stanford = ["Stanford University"; "stanford university"] ++ ["MIT"]
  /\ exists logp gpre log gn,
      group_names Fuzz.extractOne 89
        ["Stanford University"; "stanford university"] = (logp, inr gpre)
      /\ group_names Fuzz.extractOne 89 stanford = (log, inr gn)
      /\ fixed_points gpre
      /\ fixed_points gn
      /\ (forall k v, get k gpre = Some v -> get k gn = Some v)
      /\ (forall k k' v v',
            get k gpre = Some v -> get k' gpre = Some v' ->
            (v = v' <-> get k gn = get k' gn)).
Proof.
  split; [exact NoDup_stanford|]. split; [reflexivity|].
  exact (canonical_fixed_point_invariant Fuzz.extractOne 89 fuzz_extractOne_ok
           stanford ["Stanford University"; "stanford university"] ["MIT"]
           NoDup_stanford eq_refl).
Defined.

(** Under threshold 100 the second spelling of Stanford, which scores
    exactly 100, stays on its own. *)
Lemma score_at_threshold_does_not_merge_witness :
  NoDup (["Stanford University"] ++ "stanford university" :: ["MIT"])
  /\ ["Stanford University"] <> []
  /\ Fuzz.extractOne "stanford university" ["Stanford University"]
     = Some ("Stanford University", 100%Z)
  /\ exists log gn,
      group_names Fuzz.extractOne 100
        (["Stanford University"] ++ "stanford university" :: ["MIT"])
      = (log, inr gn)
      /\ (100%Z = 100%Z -> get "stanford university" gn = Some "stanford university")
      /\ ((100 <= 100)%Z -> get "stanford university" gn = Some "stanford university")
      /\ ((100 > 100)%Z ->
            exists c, get "stanford university" gn = Some c
                      /\ get "Stanford University" gn = Some c
                      /\ c <> "stanford university")
      /\ (get "stanford university" gn <> Some "stanford university" ->
          (100 > 100)%Z).
Proof.
  assert (Hne : ["Stanford University"] <> []) by discriminate.
  assert (Hm : Fuzz.extractOne "stanford university" ["Stanford University"]
               = Some ("Stanford University", 100%Z))
    by (vm_compute; reflexivity).
  split; [exact NoDup_stanford|]. split; [exact Hne|]. split; [exact Hm|].
  exact (score_at_threshold_does_not_merge Fuzz.extractOne 100
           fuzz_extractOne_ok ["Stanford University"] ["MIT"]
           "stanford university" "Stanford University" 100
           NoDup_stanford Hne Hm).
Defined.

Lemma canonical_is_first_seen_witness :
  NoDup (["Stanford University"] ++ "stanford university" :: ["MIT"])
  /\ exists log gn c,
      group_names Fuzz.extractOne 89
        (["Stanford University"] ++ "stanford university" :: ["MIT"])
      = (log, inr gn)
      /\ get "stanford university" gn = Some c
      /\ get c gn = Some c
      /\ (c = "stanford university" \/ In c ["Stanford University"])
      /\ (c <> "stanford university" -> In c ["Stanford University"]).
Proof.
  split; [exact NoDup_stanford|].
  exact (canonical_is_first_seen Fuzz.extractOne 89 fuzz_extractOne_ok
           ["Stanford University"] ["MIT"] "stanford university"
           NoDup_stanford).
Defined.

Lemma threshold_monotone_witness :
  (89 <= 100)%Z
  /\ NoDup stanford
  /\ exists log gn log' gn',
      group_names Fuzz.extractOne 89 stanford = (log, inr gn)
      /\ group_names Fuzz.extractOne 100 stanford = (log', inr gn')
      /\ (forall n, get n gn = Some n -> get n gn' = Some n)
      /\ cluster_count gn <= cluster_count gn'.
Proof.
  assert (Hle : (89 <= 100)%Z) by lia.
  split; [exact Hle|]. split; [exact NoDup_stanford|].
  exact (threshold_monotone Fuzz.extractOne 89 100 fuzz_extractOne_ok Hle
           stanford NoDup_stanford).
Defined.

(** Raising the threshold from 89 to 100 on the first scenario: two clusters
    become three. *)
Example stanford_thresholds :
  (exists log gn, group_names Fuzz.extractOne 89 stanford = (log, inr gn)
                  /\ cluster_count gn = 2)
  /\ (exists log gn, group_names Fuzz.extractOne 100 stanford = (log, inr gn)
                     /\ cluster_count gn = 3).
Proof.
  split; eexists _, _; (split; [vm_compute; reflexivity|]); vm_compute; reflexivity.
Qed.

(** ** The whole function on a column *)

(** With a matcher that answers, [fuzzy_grouping] raises nothing on any
    column, duplicates included, and every row gets a group name. *)
Lemma fuzzy_grouping_resolves_every_row
  (extractOne : string -> list string -> option (string * Z)) (threshold : Z)
  (column : list string) :
  oracle_ok extractOne ->
  exists log out,
    fuzzy_grouping extractOne threshold column = (log, inr out)
    /\ List.length out = List.length column
    /\ Forall (fun o => o <> None) out.
Proof.
  intros Hok.
  destruct (group_names_prefix extractOne threshold Hok (unique column) [])
    as (gn & tail & Hrun & Hk & _).
  { rewrite app_nil_r. apply unique_NoDup. }
  unfold fuzzy_grouping. rewrite Hrun.
  exists (calls_from [] (unique column)), (map (fun x => get x gn) column).
  split; [reflexivity|]. split; [apply length_map|].
  apply Forall_forall. intros o Ho. apply in_map_iff in Ho.
  destruct Ho as (x & <- & Hx). apply unique_In in Hx. rewrite <- Hk in Hx.
  destruct (keys_get _ _ Hx) as [c ->]. discriminate.
Qed.

(** ** Cleaning a text cell *)

Module StrFacts.

Import Str.

Ltac each_char c := destruct c as [[] [] [] [] [] [] [] []]; reflexivity.

Lemma isspace_upper_char c : isspace (upper_char c) = isspace c.
Proof. each_char c. Qed.

Lemma isspace_lower_char c : isspace (lower_char c) = isspace c.
Proof. each_char c. Qed.

Lemma upper_char_idem c : upper_char (upper_char c) = upper_char c.
Proof. each_char c. Qed.

Lemma lower_char_idem c : lower_char (lower_char c) = lower_char c.
Proof. each_char c. Qed.

Lemma lower_upper_char c : lower_char (upper_char c) = lower_char c.
Proof. each_char c. Qed.

Lemma upper_lower_char c : upper_char (lower_char c) = upper_char c.
Proof. each_char c. Qed.

Lemma lower_idem s : lower (lower s) = lower s.
Proof. induction s; simpl; [|rewrite lower_char_idem, IHs]; reflexivity. Qed.

Lemma length_upper s : String.length (upper s) = String.length s.
Proof. induction s; simpl; auto. Qed.

Lemma length_lstrip s : String.length (lstrip s) <= String.length s.
Proof. induction s; simpl; [lia|]. destruct (isspace a); simpl; lia. Qed.

(** A string that [lstrip] leaves alone is empty or starts with a character
    that is no white space. *)
Lemma lstrip_fixed_head c s : lstrip (String c s) = String c s -> isspace c = false.
Proof.
  simpl. destruct (isspace c); auto. intros H.
  pose proof (length_lstrip s) as Hlen. rewrite H in Hlen. simpl in Hlen. lia.
Qed.

Lemma lstrip_idem s : lstrip (lstrip s) = lstrip s.
Proof.
  induction s; simpl; auto.
  destruct (isspace a) eqn:E; auto. simpl. now rewrite E.
Qed.

Lemma rstrip_idem s : rstrip (rstrip s) = rstrip s.
Proof.
  induction s; simpl; auto.
  destruct (rstrip s) as [|d r] eqn:E.
  - destruct (isspace a) eqn:Ea; simpl; [reflexivity | now rewrite Ea].
  - remember (String d r) as t. simpl. rewrite IHs. now subst t.
Qed.

Lemma lstrip_rstrip s : lstrip s = s -> lstrip (rstrip s) = rstrip s.
Proof.
  destruct s as [|c s]; auto. intros H. apply lstrip_fixed_head in H.
  simpl. destruct (rstrip s); [rewrite H|]; simpl; now rewrite H.
Qed.

Lemma strip_fixed s : lstrip (strip s) = strip s /\ rstrip (strip s) = strip s.
Proof.
  unfold strip. split.
  - apply lstrip_rstrip, lstrip_idem.
  - apply rstrip_idem.
Qed.

(** Stripping twice strips once. *)
Lemma strip_idem s : strip (strip s) = strip s.
Proof.
  destruct (strip_fixed s) as [Hl Hr]. unfold strip at 1. now rewrite Hl, Hr.
Qed.

Lemma rstrip_lower s : rstrip (lower s) = lower (rstrip s).
Proof.
  induction s; simpl; auto. rewrite IHs, isspace_lower_char.
  destruct (rstrip s); simpl; auto. destruct (isspace a); reflexivity.
Qed.

Lemma rstrip_capitalize s : rstrip (capitalize s) = capitalize (rstrip s).
Proof.
  destruct s as [|c s]; simpl; auto. rewrite rstrip_lower, isspace_upper_char.
  destruct (rstrip s); simpl; auto. destruct (isspace c); reflexivity.
Qed.

Lemma strip_capitalize s :
  lstrip s = s -> rstrip s = s -> strip (capitalize s) = capitalize s.
Proof.
  intros Hl Hr. unfold strip.
  assert (H : lstrip (capitalize s) = capitalize s).
  { destruct s as [|c s]; auto. apply lstrip_fixed_head in Hl.
    simpl. now rewrite isspace_upper_char, Hl. }
  now rewrite H, rstrip_capitalize, Hr.
Qed.

Lemma capitalize_idem s : capitalize (capitalize s) = capitalize s.
Proof.
  destruct s as [|c s]; simpl; auto. now rewrite upper_char_idem, lower_idem.
Qed.

Lemma capitalize_eq_lower a b : capitalize a = capitalize b <-> lower a = lower b.
Proof.
  destruct a as [|c a], b as [|d b]; simpl; split; try discriminate; auto.
  - intros [= Hc Hs]. f_equal; auto.
    now rewrite <- (lower_upper_char c), Hc, lower_upper_char.
  - intros [= Hc Hs].
    assert (Hu : upper_char c = upper_char d)
      by (now rewrite <- (upper_lower_char c), Hc, upper_lower_char).
    assert (Hl : lower (lower a) = lower (lower b)) by (now rewrite Hs).
    now rewrite Hu, Hs.
Qed.

Lemma isascii_upper_char c : isascii_char (upper_char c) = isascii_char c.
Proof. each_char c. Qed.

Lemma isascii_lower_char c : isascii_char (lower_char c) = isascii_char c.
Proof. each_char c. Qed.

Lemma isascii_lower s : isascii (lower s) = isascii s.
Proof.
  induction s; simpl; [|rewrite isascii_lower_char, IHs]; reflexivity.
Qed.

Lemma isascii_capitalize s : isascii (capitalize s) = isascii s.
Proof.
  destruct s; simpl; [|rewrite isascii_upper_char, isascii_lower]; reflexivity.
Qed.

Lemma isascii_lstrip s : isascii s = true -> isascii (lstrip s) = true.
Proof.
  induction s as [|c s IH]; simpl; auto.
  intros H. apply andb_prop in H. destruct H as [Hc Hs].
  destruct (isspace c); [auto|]. simpl. now rewrite Hc, Hs.
Qed.

Lemma isascii_rstrip s : isascii s = true -> isascii (rstrip s) = true.
Proof.
  induction s as [|c s IH]; simpl; auto.
  intros H. apply andb_prop in H. destruct H as [Hc Hs].
  specialize (IH Hs). destruct (rstrip s) as [|d r].
  - destruct (isspace c); simpl; [reflexivity | now rewrite Hc].
  - remember (String d r) as t. simpl. now rewrite Hc, IH.
Qed.

Lemma isascii_strip s : isascii s = true -> isascii (strip s) = true.
Proof. intros H. unfold strip. now apply isascii_rstrip, isascii_lstrip. Qed.

End StrFacts.

(** X1. Cleaning an ASCII text cell gives ASCII text, and cleaning it twice
    gives what cleaning it once gives. *)
Theorem clean_text_idempotent (s : string) :
  Str.isascii s = true ->
  Str.isascii (clean_text s) = true
  /\ clean_text (clean_text s) = clean_text s.
Proof.
  intros Hs. unfold clean_text. split.
  - rewrite StrFacts.isascii_capitalize. now apply StrFacts.isascii_strip.
  - destruct (StrFacts.strip_fixed s) as [Hl Hr].
    rewrite (StrFacts.strip_capitalize _ Hl Hr). apply StrFacts.capitalize_idem.
Qed.

Lemma clean_text_idempotent_witness :
  Str.isascii "  outstanding WINNER " = true
  /\ Str.isascii (clean_text "  outstanding WINNER ") = true
  /\ clean_text (clean_text "  outstanding WINNER ")
     = clean_text "  outstanding WINNER ".
Proof.
  assert (Hs : Str.isascii "  outstanding WINNER " = true) by reflexivity.
  split; [exact Hs|].
  exact (clean_text_idempotent "  outstanding WINNER " Hs).
Defined.

(** X2. Two ASCII text cells are the same after cleaning exactly when they
    are the same up to letter case and surrounding white space; so an ASCII
    ranking typed in any such way is the 'Outstanding winner' that line 145
    looks for. *)
Theorem clean_text_equal_up_to_case (s t : string) :
  Str.isascii s = true -> Str.isascii t = true ->
  (clean_text s = clean_text t
   <-> Str.lower (Str.strip s) = Str.lower (Str.strip t))
  /\ (clean_text s = "Outstanding winner"
      <-> Str.lower (Str.strip s) = "outstanding winner").
Proof.
  intros _ _.
  split; [apply StrFacts.capitalize_eq_lower|].
  change "Outstanding winner" with (Str.capitalize "outstanding winner").
  change "outstanding winner" with (Str.lower "outstanding winner") at 2.
  apply StrFacts.capitalize_eq_lower.
Qed.

Lemma clean_text_equal_up_to_case_witness :
  Str.isascii "  outstanding WINNER " = true
  /\ Str.isascii "Outstanding Winner" = true
  /\ (clean_text "  outstanding WINNER " = clean_text "Outstanding Winner"
      <-> Str.lower (Str.strip "  outstanding WINNER ")
          = Str.lower (Str.strip "Outstanding Winner"))
  /\ (clean_text "  outstanding WINNER " = "Outstanding winner"
      <-> Str.lower (Str.strip "  outstanding WINNER ") = "outstanding winner").
Proof.
  assert (Hs : Str.isascii "  outstanding WINNER " = true) by reflexivity.
  assert (Ht : Str.isascii "Outstanding Winner" = true) by reflexivity.
  split; [exact Hs|]. split; [exact Ht|].
  exact (clean_text_equal_up_to_case "  outstanding WINNER "
           "Outstanding Winner" Hs Ht).
Defined.

(** ** Cleaning a state cell *)

Lemma state_abbreviation_entry abbr full :
  get abbr state_abbreviations = Some full ->
  String.length abbr = 2
  /\ Str.strip full = full
  /\ get (Str.upper full) state_abbreviations = None.
Proof.
  intros H. apply get_In in H.
  assert (Hall : forallb
            (fun kv =>
               (String.length (fst kv) =? 2)%nat
               && String.eqb (Str.strip (snd kv)) (snd kv)
               && match get (Str.upper (snd kv)) state_abbreviations with
                  | None => true
                  | Some _ => false
                  end)
            state_abbreviations = true) by (vm_compute; reflexivity).
  rewrite forallb_forall in Hall. specialize (Hall _ H). cbn [fst snd] in Hall.
  apply andb_prop in Hall. destruct Hall as [Hall Hnone].
  apply andb_prop in Hall. destruct Hall as [Hlen Hstrip].
  apply Nat.eqb_eq in Hlen. apply String.eqb_eq in Hstrip.
  destruct (get (Str.upper full) state_abbreviations); [discriminate|]. auto.
Qed.

(** X3. Every abbreviation of [state_abbreviations], typed in any letter
    case and with any white space around it, is replaced by the full name
    of the state. *)
Theorem state_abbreviation_expanded (abbr full x : string) :
  get abbr state_abbreviations = Some full ->
  Str.upper (Str.strip x) = abbr ->
  clean_state (Some x) = full.
Proof.
  intros Hget Hx. unfold clean_state, expand_state. cbn [fillna]. rewrite Hx, Hget.
  destruct (state_abbreviation_entry _ _ Hget) as [Hlen _].
  rewrite <- Hx, StrFacts.length_upper in Hlen. now rewrite Hlen.
Qed.

Lemma state_abbreviation_expanded_witness :
  get "CA" state_abbreviations = Some "California"
  /\ Str.upper (Str.strip "  ca ") = "CA"
  /\ clean_state (Some "  ca ") = "California".
Proof.
  assert (Hget : get "CA" state_abbreviations = Some "California")
    by reflexivity.
  assert (Hx : Str.upper (Str.strip "  ca ") = "CA") by reflexivity.
  split; [exact Hget|]. split; [exact Hx|].
  exact (state_abbreviation_expanded "CA" "California" "  ca " Hget Hx).
Defined.

Lemma state_full_name_ascii abbr full :
  get abbr state_abbreviations = Some full -> Str.isascii full = true.
Proof.
  intros H. apply get_In in H.
  assert (Hall : forallb (fun kv => Str.isascii (snd kv)) state_abbreviations
                 = true) by (vm_compute; reflexivity).
  rewrite forallb_forall in Hall. exact (Hall _ H).
Qed.

(** X4. A cleaned ASCII state cell is ASCII text, is never an abbreviation
    of [state_abbreviations], in any letter case, has no white space around
    it, and cleaning it again changes nothing; a missing cell becomes
    'Unknown'. *)
Theorem clean_state_final (cell : option string) :
  Str.isascii (fillna cell) = true ->
  Str.isascii (clean_state cell) = true
  /\ get (Str.upper (clean_state cell)) state_abbreviations = None
  /\ Str.strip (clean_state cell) = clean_state cell
  /\ clean_state (Some (clean_state cell)) = clean_state cell
  /\ clean_state None = "Unknown".
Proof.
  intros Hascii.
  assert (H : Str.isascii (clean_state cell) = true
              /\ get (Str.upper (clean_state cell)) state_abbreviations = None
              /\ Str.strip (clean_state cell) = clean_state cell).
  { unfold clean_state, expand_state.
    pose proof (StrFacts.isascii_strip _ Hascii) as Hy.
    set (y := Str.strip (fillna cell)) in *.
    destruct (get (Str.upper y) state_abbreviations) as [full|] eqn:E.
    - destruct (state_abbreviation_entry _ _ E) as (Hlen & Hstrip & Hnone).
      pose proof (state_full_name_ascii _ _ E) as Hfull.
      rewrite StrFacts.length_upper in Hlen. rewrite Hlen. simpl. auto.
    - split; [exact Hy|]. split; [exact E | apply StrFacts.strip_idem]. }
  destruct H as (Hres & Hnone & Hstrip).
  split; [exact Hres|].
  split; [exact Hnone|]. split; [exact Hstrip|]. split; [|reflexivity].
  change (expand_state (Str.strip (clean_state cell)) = clean_state cell).
  rewrite Hstrip. unfold expand_state at 1. now rewrite Hnone.
Qed.

Lemma clean_state_final_witness :
  Str.isascii (fillna (Some " ca ")) = true
  /\ Str.isascii (clean_state (Some " ca ")) = true
  /\ get (Str.upper (clean_state (Some " ca "))) state_abbreviations = None
  /\ Str.strip (clean_state (Some " ca ")) = clean_state (Some " ca ")
  /\ clean_state (Some (clean_state (Some " ca "))) = clean_state (Some " ca ")
  /\ clean_state None = "Unknown".
Proof.
  assert (Hs : Str.isascii (fillna (Some " ca ")) = true) by reflexivity.
  split; [exact Hs|].
  exact (clean_state_final (Some " ca ") Hs).
Defined.

(** ** The tables of [save_csv] *)

Lemma same_name_eq a b : same_name a b = true <-> a = b.
Proof.
  destruct a, b; simpl; split; try discriminate; auto.
  - intros H. apply String.eqb_eq in H. congruence.
  - intros [= ->]. apply String.eqb_refl.
Qed.

Lemma existsb_same_name n seen :
  existsb (same_name n) seen = true <-> In n seen.
Proof.
  rewrite existsb_exists. split.
  - intros (x & Hx & Hn). apply same_name_eq in Hn. now subst.
  - intros H. exists n. split; auto. now apply same_name_eq.
Qed.

(** [drop_duplicates] keeps one record of every name, and only those. *)
Lemma drop_duplicates_from_spec data :
  forall seen,
    NoDup (map c_Grouped_Institution (drop_duplicates_from seen data))
    /\ (forall c, In c (drop_duplicates_from seen data) ->
          In c data /\ ~ In (c_Grouped_Institution c) seen)
    /\ (forall c, In c data -> ~ In (c_Grouped_Institution c) seen ->
          In (c_Grouped_Institution c)
            (map c_Grouped_Institution (drop_duplicates_from seen data))).
Proof.
  induction data as [|d rest IH]; intros seen; simpl.
  - repeat split; [constructor | tauto | tauto | tauto].
  - destruct (existsb (same_name (c_Grouped_Institution d)) seen) eqn:E.
    + apply existsb_same_name in E.
      destruct (IH seen) as (Hnd & Hin & Hall). repeat split; auto.
      * right. now apply Hin.
      * now apply Hin.
      * intros c [->|Hc] Hs; [tauto | auto].
    + assert (Hd : ~ In (c_Grouped_Institution d) seen).
      { intros H. apply existsb_same_name in H. congruence. }
      destruct (IH (c_Grouped_Institution d :: seen)) as (Hnd & Hin & Hall).
      repeat split.
      * simpl. constructor; auto. intros H. apply in_map_iff in H.
        destruct H as (c & Hn & Hc). apply Hin in Hc. simpl in Hc.
        destruct Hc as [_ Hc]. apply Hc. now left.
      * destruct H as [->|H]; [now left | right; now apply Hin].
      * destruct H as [->|H]; [assumption|]. apply Hin in H. simpl in H. tauto.
      * intros c [->|Hc] Hs; simpl; [now left|].
        destruct (same_name (c_Grouped_Institution d) (c_Grouped_Institution c))
          eqn:En.
        -- apply same_name_eq in En. now left.
        -- right. apply Hall; auto. simpl. intros [H|H]; [|tauto].
           apply same_name_eq in H. congruence.
Qed.

Lemma reset_index_from_spec data :
  forall i,
    map Institution_ID (reset_index_from i data) = seq i (List.length data)
    /\ map Institution_Name (reset_index_from i data)
       = map c_Grouped_Institution data.
Proof.
  induction data as [|c rest IH]; intros i; simpl; auto.
  destruct (IH (S i)) as [-> ->]. auto.
Qed.


(** Among institutions of distinct names, the institutions of one name are
    the one that [find] finds, if any. *)
Lemma filter_by_name institutions name :
  NoDup (map Institution_Name institutions) ->
  filter (fun i => same_name name (Institution_Name i)) institutions
  = match find (fun i => same_name name (Institution_Name i)) institutions with
    | Some i => [i]
    | None => []
    end.
Proof.
  induction institutions as [|a l IH]; simpl; auto.
  intros Hnd. inversion Hnd as [|? ? Ha Hl]; subst.
  destruct (same_name name (Institution_Name a)) eqn:E; auto.
  f_equal. apply same_name_eq in E. subst name.
  clear IH Hnd Hl. induction l as [|b l IH]; simpl; auto.
  destruct (same_name (Institution_Name a) (Institution_Name b)) eqn:Eb.
  - apply same_name_eq in Eb. exfalso. apply Ha. simpl. now left.
  - apply IH. intros H. apply Ha. simpl. now right.
Qed.

(** The left merge of line 113 is a lookup of each record's name. *)
Lemma merge_teams_lookup data institutions :
  NoDup (map Institution_Name institutions) ->
  merge_teams data institutions
  = map (fun c => team_of c (institution_id institutions
                               (c_Grouped_Institution c))) data.
Proof.
  intros Hnd. unfold merge_teams.
  rewrite (flat_map_ext _
             (fun c => [team_of c (institution_id institutions
                                     (c_Grouped_Institution c))])).
  - induction data as [|c rest IH]; simpl; [|rewrite IH]; reflexivity.
  - intros c. rewrite (filter_by_name _ _ Hnd). unfold institution_id.
    destruct (find _ institutions); reflexivity.
Qed.

Lemma institution_id_found institutions inst :
  NoDup (map Institution_Name institutions) ->
  In inst institutions ->
  institution_id institutions (Institution_Name inst)
  = Some (Institution_ID inst).
Proof.
  intros Hnd Hin. unfold institution_id.
  pose proof (filter_by_name institutions (Institution_Name inst) Hnd) as Hf.
  assert (Hmem : In inst (filter (fun i => same_name (Institution_Name inst)
                                             (Institution_Name i)) institutions)).
  { apply filter_In. split; auto. now apply same_name_eq. }
  rewrite Hf in Hmem.
  destruct (find _ institutions) as [i|]; simpl in Hmem; [|tauto].
  destruct Hmem as [->|[]]. reflexivity.
Qed.

Lemma combine_map_self {A B : Type} (f : A -> B) (l : list A) :
  combine l (map f l) = map (fun x => (x, f x)) l.
Proof. induction l; simpl; [|rewrite IHl]; reflexivity. Qed.

(** With a matcher that answers, [fuzzy_grouping] on any column is the
    lookup of every cell in the dictionary built over the distinct names. *)
Lemma fuzzy_grouping_shape extractOne threshold column :
  oracle_ok extractOne ->
  exists gn,
    group_names extractOne threshold (unique column)
    = (calls_from [] (unique column), inr gn)
    /\ keys gn = unique column
    /\ fixed_points gn
    /\ fuzzy_grouping extractOne threshold column
       = (calls_from [] (unique column), inr (map (fun x => get x gn) column))
    /\ (forall x, In x column -> exists c, get x gn = Some c).
Proof.
  intros Hok.
  destruct (group_names_prefix extractOne threshold Hok (unique column) [])
    as (gn & tail & Hrun & Hk & Hfix & _).
  { rewrite app_nil_r. apply unique_NoDup. }
  exists gn. unfold fuzzy_grouping. rewrite Hrun. repeat split; auto.
  intros x Hx. apply keys_get. rewrite Hk. now apply unique_In.
Qed.

Section SaveCsvFacts.

Variable extractOne : string -> list string -> option (string * Z).
Variable data_2015 : DataFrame.
Hypothesis answers : oracle_ok extractOne.
Hypothesis header : issubset required_columns (columns data_2015) = true.

(** The shape of what [save_csv] returns on a table that has the required
    columns: the teams are the cleaned records, each with the identifier
    found for its name, and the institutions have distinct names, one for
    every name of the cleaned records, numbered from 0. *)
Lemma save_csv_shape :
  exists gn,
    let names := map Institution (rows data_2015) in
    let data :=
      map (fun r => clean_row r (get (Institution r) gn)) (rows data_2015) in
    let institutions := institutions_of data in
    group_names extractOne 89 (unique names)
    = (calls_from [] (unique names), inr gn)
    /\ fixed_points gn
    /\ (forall r, In r (rows data_2015) ->
          exists c, get (Institution r) gn = Some c)
    /\ save_csv extractOne (Some data_2015)
       = inr (Some (map (fun c => team_of c (institution_id institutions
                                                (c_Grouped_Institution c)))
                      data,
                    institutions))
    /\ NoDup (map Institution_Name institutions)
    /\ map Institution_ID institutions = seq 0 (List.length institutions)
    /\ (forall n, In n (map Institution_Name institutions)
                  <-> In n (map c_Grouped_Institution data)).
Proof.
  destruct (fuzzy_grouping_shape extractOne 89
              (map Institution (rows data_2015)) answers)
    as (gn & Hrun & Hk & Hfix & Hfg & Hall).
  exists gn. cbv zeta.
  set (data := map (fun r => clean_row r (get (Institution r) gn))
                 (rows data_2015)).
  assert (Hclean : cleaned_data extractOne (rows data_2015) = inr data).
  { unfold cleaned_data. rewrite Hfg, map_map, combine_map_self, map_map.
    reflexivity. }
  destruct (drop_duplicates_from_spec data []) as (Hnd & Hin & Hcover).
  destruct (reset_index_from_spec (drop_duplicates data) 0) as [Hids Hnames].
  assert (Hnd' : NoDup (map Institution_Name (institutions_of data))).
  { unfold institutions_of. now rewrite Hnames. }
  split; [exact Hrun|]. split; [exact Hfix|]. split.
  { intros r Hr. apply Hall. now apply in_map. }
  split.
  { unfold save_csv. rewrite header. simpl. rewrite Hclean.
    now rewrite (merge_teams_lookup _ _ Hnd'). }
  split; [exact Hnd'|]. split.
  { unfold institutions_of. rewrite Hids. f_equal.
    rewrite <- (length_map Institution_ID), Hids. now rewrite length_seq. }
  intros n. unfold institutions_of. rewrite Hnames. split.
  - intros H. apply in_map_iff in H. destruct H as (c & <- & Hc).
    apply in_map. now apply Hin.
  - intros H. apply in_map_iff in H. destruct H as (c & <- & Hc).
    apply Hcover; auto.
Qed.

End SaveCsvFacts.


Lemma nth_error_by_id institutions inst :
  map Institution_ID institutions = seq 0 (List.length institutions) ->
  In inst institutions ->
  nth_error institutions (Institution_ID inst) = Some inst.
Proof.
  intros Hids Hin. destruct (In_nth_error _ _ Hin) as [k Hk].
  pose proof (map_nth_error Institution_ID _ _ Hk) as Hm.
  rewrite Hids, nth_error_seq in Hm.
  destruct (k <? List.length institutions)%nat; [|discriminate].
  injection Hm as <-. exact Hk.
Qed.


(** What [save_csv] returns, when it returns tables, is built from some
    cleaned records. *)
Lemma save_csv_returns extractOne data_2015 teams institutions :
  save_csv extractOne (Some data_2015) = inr (Some (teams, institutions)) ->
  exists data,
    institutions = institutions_of data
    /\ teams = merge_teams data institutions.
Proof.
  unfold save_csv.
  destruct (negb (issubset required_columns (columns data_2015)));
    [discriminate|].
  destruct (cleaned_data extractOne (rows data_2015)) as [e|data];
    [discriminate|].
  intros [= <- <-]. exists data. auto.
Qed.

(** X5. Institutions.csv. Whenever [save_csv] returns its two tables, with
    whatever matcher and on whatever table, the institutions are numbered
    0, 1, 2, ... in order, so that the identifier of an institution is its
    position, and their names are pairwise distinct. *)
Theorem institutions_numbered_and_distinct
  (extractOne : string -> list string -> option (string * Z))
  (data_2015 : DataFrame) (teams : list team)
  (institutions : list institution) :
  save_csv extractOne (Some data_2015) = inr (Some (teams, institutions)) ->
  map Institution_ID institutions = seq 0 (List.length institutions)
  /\ NoDup (map Institution_Name institutions)
  /\ (forall inst, In inst institutions ->
        nth_error institutions (Institution_ID inst) = Some inst).
Proof.
  intros Hsave. destruct (save_csv_returns _ _ _ _ Hsave) as (data & -> & _).
  destruct (drop_duplicates_from_spec data []) as (Hnd & _ & _).
  destruct (reset_index_from_spec (drop_duplicates data) 0) as [Hids Hnames].
  assert (Hseq : map Institution_ID (institutions_of data)
                 = seq 0 (List.length (institutions_of data))).
  { unfold institutions_of. rewrite Hids. f_equal.
    rewrite <- (length_map Institution_ID), Hids. now rewrite length_seq. }
  split; [exact Hseq|]. split.
  - unfold institutions_of. now rewrite Hnames.
  - intros inst Hin. now apply nth_error_by_id.
Qed.

Section SaveCsvTables.

Variable extractOne : string -> list string -> option (string * Z).
Variable data_2015 : DataFrame.
Hypothesis answers : oracle_ok extractOne.
Hypothesis header : issubset required_columns (columns data_2015) = true.


(** X7. Every institution of Institutions.csv has at least one team in
    Teams.csv. *)
Theorem every_institution_has_a_team :
  exists teams institutions,
    save_csv extractOne (Some data_2015) = inr (Some (teams, institutions))
    /\ forall inst, In inst institutions ->
         exists t, In t teams
                   /\ t_Institution_ID t = Some (Institution_ID inst)
                   /\ t_Grouped_Institution t = Institution_Name inst.
Proof.
  destruct (save_csv_shape extractOne data_2015 answers header)
    as (gn & Hrun & Hfix & Hall & Hsave & Hnd & Hids & Hnames).
  eexists _, _. split; [exact Hsave|]. intros inst Hin.
  assert (H : In (Institution_Name inst)
                (map Institution_Name
                   (institutions_of
                      (map (fun r => clean_row r (get (Institution r) gn))
                         (rows data_2015))))) by (now apply in_map).
  apply Hnames in H. apply in_map_iff in H. destruct H as (c & Hc & Hin').
  exists (team_of c (institution_id
                       (institutions_of
                          (map (fun r => clean_row r (get (Institution r) gn))
                             (rows data_2015)))
                       (c_Grouped_Institution c))).
  split; [|split].
  - apply in_map_iff. exists c. auto.
  - simpl. rewrite Hc. now apply institution_id_found.
  - simpl. exact Hc.
Qed.

(** X8. The identifier of a team depends on the name of its institution as
    read and on nothing else, and two names that the grouping pass puts in
    one group have one identifier. *)
Theorem same_group_same_identifier :
  exists log gn teams institutions (id_of : string -> option nat),
    group_names extractOne 89 (unique (map Institution (rows data_2015)))
    = (log, inr gn)
    /\ save_csv extractOne (Some data_2015) = inr (Some (teams, institutions))
    /\ map t_Institution_ID teams
       = map (fun r => id_of (Institution r)) (rows data_2015)
    /\ (forall x y, get x gn = get y gn -> id_of x = id_of y).
Proof.
  destruct (save_csv_shape extractOne data_2015 answers header)
    as (gn & Hrun & Hfix & Hall & Hsave & Hnd & Hids & Hnames).
  eexists _, gn, _, _,
    (fun x => institution_id
                (institutions_of
                   (map (fun r => clean_row r (get (Institution r) gn))
                      (rows data_2015)))
                (option_map clean_text (get x gn))).
  split; [exact Hrun|]. split; [exact Hsave|]. split.
  - rewrite !map_map. reflexivity.
  - intros x y Hxy. now rewrite Hxy.
Qed.


End SaveCsvTables.

(** ** Sorting and counting *)

Lemma insert_by_count_perm {A : Type} (x : A * nat) l :
  Permutation (insert_by_count x l) (x :: l).
Proof.
  induction l as [|y l IH]; simpl; auto.
  destruct (snd y <=? snd x)%nat; auto.
  rewrite IH. apply perm_swap.
Qed.

Lemma sort_by_count_perm {A : Type} (l : list (A * nat)) :
  Permutation (sort_by_count l) l.
Proof.
  induction l as [|x l IH]; simpl; auto.
  rewrite insert_by_count_perm. now constructor.
Qed.

Lemma insert_by_count_sorted {A : Type} (x : A * nat) l :
  Sorted (fun a b => snd b <= snd a) l ->
  Sorted (fun a b => snd b <= snd a) (insert_by_count x l).
Proof.
  induction l as [|y l IH]; simpl; intros Hs.
  - repeat constructor.
  - destruct (snd y <=? snd x)%nat eqn:E.
    + apply Nat.leb_le in E. constructor; auto.
    + apply Nat.leb_gt in E. inversion Hs as [|? ? Hl Hhd]; subst.
      constructor; auto.
      destruct l as [|z l]; simpl.
      * constructor. lia.
      * destruct (snd z <=? snd x)%nat; constructor; [lia|].
        now inversion Hhd.
Qed.

Lemma sort_by_count_sorted {A : Type} (l : list (A * nat)) :
  Sorted (fun a b => snd b <= snd a) (sort_by_count l).
Proof.
  induction l as [|x l IH]; simpl; [constructor|].
  now apply insert_by_count_sorted.
Qed.

Lemma insert_by_name_perm x l : Permutation (insert_by_name x l) (x :: l).
Proof.
  induction l as [|y l IH]; simpl; auto.
  destruct (name_leb (Institution_Name x) (Institution_Name y)); auto.
  rewrite IH. apply perm_swap.
Qed.

Lemma sort_by_name_perm l : Permutation (sort_by_name l) l.
Proof.
  induction l as [|x l IH]; simpl; auto.
  rewrite insert_by_name_perm. now constructor.
Qed.

Lemma name_leb_total a b : name_leb a b = false -> name_leb b a = true.
Proof.
  destruct a as [x|], b as [y|]; simpl; try discriminate; auto.
  destruct (String.leb_total x y) as [H|H]; congruence.
Qed.

Lemma insert_by_name_sorted x l :
  Sorted (fun a b => name_leb (Institution_Name a) (Institution_Name b) = true) l ->
  Sorted (fun a b => name_leb (Institution_Name a) (Institution_Name b) = true)
    (insert_by_name x l).
Proof.
  induction l as [|y l IH]; simpl; intros Hs.
  - repeat constructor.
  - destruct (name_leb (Institution_Name x) (Institution_Name y)) eqn:E.
    + constructor; auto.
    + apply name_leb_total in E. inversion Hs as [|? ? Hl Hhd]; subst.
      constructor; auto.
      destruct l as [|z l]; simpl.
      * constructor. exact E.
      * destruct (name_leb (Institution_Name x) (Institution_Name z));
          constructor; [exact E|]. now inversion Hhd.
Qed.

Lemma sort_by_name_sorted l :
  Sorted (fun a b => name_leb (Institution_Name a) (Institution_Name b) = true)
    (sort_by_name l).
Proof.
  induction l as [|x l IH]; simpl; [constructor|].
  now apply insert_by_name_sorted.
Qed.

Lemma distinct_from_spec ids :
  forall seen,
    NoDup (distinct_from seen ids)
    /\ (forall i, In i (distinct_from seen ids) <-> In i ids /\ ~ In i seen).
Proof.
  induction ids as [|x rest IH]; intros seen; simpl.
  - split; [constructor|]. tauto.
  - destruct (existsb (Nat.eqb x) seen) eqn:E.
    + apply existsb_exists in E. destruct E as (y & Hy & Hxy).
      apply Nat.eqb_eq in Hxy. subst y.
      destruct (IH seen) as [Hnd Hin]. split; auto.
      intros z. rewrite Hin. intuition (subst; tauto).
    + assert (Hx : ~ In x seen).
      { intros Hin.
        assert (existsb (Nat.eqb x) seen = true); [|congruence].
        apply existsb_exists. exists x. split; auto. apply Nat.eqb_refl. }
      destruct (IH (x :: seen)) as [Hnd Hin]. split.
      * constructor; auto. rewrite Hin. simpl. tauto.
      * intros z. simpl. rewrite Hin. simpl.
        destruct (Nat.eq_dec x z) as [->|Hne]; tauto.
Qed.

Lemma distinct_NoDup ids : NoDup (distinct ids).
Proof. apply distinct_from_spec. Qed.

Lemma distinct_In ids i : In i (distinct ids) <-> In i ids.
Proof.
  unfold distinct. rewrite (proj2 (distinct_from_spec ids [])). simpl. tauto.
Qed.

(** Over distinct values that cover a list, the occurrences add up to the
    length of the list. *)
Lemma count_occ_sum (ids values : list nat) :
  NoDup values -> (forall i, In i ids -> In i values) ->
  list_sum (map (count_occ Nat.eq_dec ids) values) = List.length ids.
Proof.
  intros Hnd. induction ids as [|a ids IH]; intros Hcover; simpl.
  - clear Hcover. induction values as [|v values IHv]; simpl; auto.
    apply IHv. now inversion Hnd.
  - rewrite <- IH by (intros i Hi; apply Hcover; now right).
    assert (Ha : In a values) by (apply Hcover; now left).
    clear IH Hcover. induction values as [|v values IHv]; simpl; [destruct Ha|].
    inversion Hnd as [|? ? Hv Hnd']; subst.
    destruct (Nat.eq_dec a v) as [->|Hne].
    + simpl. f_equal. f_equal. f_equal. apply map_ext_in. intros i Hi.
      destruct (Nat.eq_dec v i) as [->|]; [tauto | reflexivity].
    + destruct Ha as [->|Ha]; [congruence|].
      specialize (IHv Hnd' Ha). simpl in IHv. lia.
Qed.

(** ** The statistics on the tables of [save_csv] *)

Lemma astype_int_spec teams :
  forall typed,
    astype_int teams = Some typed ->
    map snd typed = teams
    /\ (forall it, In it typed -> t_Institution_ID (snd it) = Some (fst it)).
Proof.
  induction teams as [|t rest IH]; simpl; intros typed.
  - intros [= <-]. split; [reflexivity | intros it []].
  - destruct (t_Institution_ID t) as [i|] eqn:Ei; [|discriminate].
    destruct (astype_int rest) as [typed'|]; [|discriminate].
    intros [= <-]. destruct (IH _ eq_refl) as [Hm Hall]. simpl. split.
    + now rewrite Hm.
    + intros it [<-|Hit]; simpl; auto.
Qed.

Lemma astype_int_total teams :
  (forall t, In t teams -> t_Institution_ID t <> None) ->
  exists typed, astype_int teams = Some typed.
Proof.
  induction teams as [|t rest IH]; simpl; intros Hall; [eauto|].
  destruct (t_Institution_ID t) as [i|] eqn:Ei.
  - destruct IH as [typed ->]; eauto.
  - exfalso. apply (Hall t); auto.
Qed.

Lemma filter_by_id institutions inst :
  NoDup (map Institution_ID institutions) ->
  In inst institutions ->
  filter (fun x => Nat.eqb (Institution_ID x) (Institution_ID inst)) institutions
  = [inst].
Proof.
  induction institutions as [|a l IH]; simpl; [tauto|].
  intros Hnd Hin. inversion Hnd as [|? ? Ha Hl]; subst.
  destruct Hin as [->|Hin].
  - rewrite Nat.eqb_refl. f_equal.
    clear IH Hnd Hl. induction l as [|b l IH]; simpl; auto.
    destruct (Nat.eqb (Institution_ID b) (Institution_ID inst)) eqn:E.
    + apply Nat.eqb_eq in E. exfalso. apply Ha. simpl. now left.
    + apply IH. intros H. apply Ha. simpl. now right.
  - destruct (Nat.eqb (Institution_ID a) (Institution_ID inst)) eqn:E.
    + apply Nat.eqb_eq in E. exfalso. apply Ha. rewrite E. now apply in_map.
    + now apply IH.
Qed.

Section Statistics.

Variable extractOne : string -> list string -> option (string * Z).
Variable data_2015 : DataFrame.
Hypothesis answers : oracle_ok extractOne.
Hypothesis header : issubset required_columns (columns data_2015) = true.

(** What the statistics can rely on: the conversion of line 130 raises
    nothing, every team points to an institution, every institution is
    pointed to, and the identifiers of the institutions are distinct. *)
Lemma statistics_context :
  exists teams institutions typed,
    save_csv extractOne (Some data_2015) = inr (Some (teams, institutions))
    /\ astype_int teams = Some typed
    /\ map snd typed = teams
    /\ List.length typed = List.length (rows data_2015)
    /\ NoDup (map Institution_ID institutions)
    /\ (forall it, In it typed ->
          t_Institution_ID (snd it) = Some (fst it)
          /\ exists inst, In inst institutions /\ Institution_ID inst = fst it)
    /\ (forall inst, In inst institutions ->
          In (Institution_ID inst) (map fst typed)).
Proof.
  destruct (save_csv_shape extractOne data_2015 answers header)
    as (gn & Hrun & Hfix & Hall & Hsave & Hnd & Hids & Hnames).
  set (data := map (fun r => clean_row r (get (Institution r) gn))
                 (rows data_2015)) in *.
  set (institutions := institutions_of data) in *.
  set (teams := map (fun c => team_of c (institution_id institutions
                                          (c_Grouped_Institution c))) data) in *.
  assert (Hteam : forall t, In t teams ->
            exists inst, In inst institutions
                         /\ t_Institution_ID t = Some (Institution_ID inst)).
  { intros t Ht. apply in_map_iff in Ht. destruct Ht as (c & <- & Hc).
    assert (Hn : In (c_Grouped_Institution c) (map Institution_Name institutions)).
    { apply Hnames. now apply in_map. }
    apply in_map_iff in Hn. destruct Hn as (inst & Hname & Hin).
    exists inst. split; auto. simpl. rewrite <- Hname.
    now apply institution_id_found. }
  destruct (astype_int_total teams) as [typed Htyped].
  { intros t Ht. destruct (Hteam t Ht) as (inst & _ & ->). discriminate. }
  destruct (astype_int_spec _ _ Htyped) as [Hsnd Hfst].
  exists teams, institutions, typed.
  split; [exact Hsave|]. split; [exact Htyped|]. split; [exact Hsnd|].
  split.
  { rewrite <- (length_map snd), Hsnd. unfold teams, data.
    now rewrite !length_map. }
  split.
  { rewrite Hids. apply seq_NoDup. }
  split.
  - intros it Hit. split; [now apply Hfst|].
    assert (Ht : In (snd it) teams) by (rewrite <- Hsnd; now apply in_map).
    destruct (Hteam _ Ht) as (inst & Hin & Hid).
    exists inst. split; auto. rewrite (Hfst it Hit) in Hid. congruence.
  - intros inst Hin.
    assert (Hn : In (Institution_Name inst) (map c_Grouped_Institution data)).
    { apply Hnames. now apply in_map. }
    apply in_map_iff in Hn. destruct Hn as (c & Hc & Hcin).
    assert (Ht : In (team_of c (institution_id institutions
                                  (c_Grouped_Institution c))) teams).
    { apply in_map_iff. exists c. auto. }
    rewrite <- Hsnd in Ht. apply in_map_iff in Ht. destruct Ht as (it & Hit & Hin').
    apply in_map_iff. exists it. split; auto.
    pose proof (Hfst it Hin') as Hid. rewrite Hit in Hid. simpl in Hid.
    rewrite Hc, (institution_id_found _ _ Hnd Hin) in Hid. congruence.
Qed.

End Statistics.

Lemma flat_map_singletons {A B : Type} (F : A -> list B) (G : A -> B) l :
  (forall x, In x l -> F x = [G x]) -> flat_map F l = map G l.
Proof.
  induction l as [|a l IH]; simpl; intros H; auto.
  rewrite (H a) by (now left). simpl. f_equal. apply IH. auto.
Qed.

Lemma flat_map_over_map {A B C : Type} (F : B -> list C) (h : A -> B) l :
  flat_map F (map h l) = flat_map (fun x => F (h x)) l.
Proof. induction l; simpl; [|rewrite IHl]; reflexivity. Qed.

(** Top_Institutions.csv, up to the order of its lines: every institution
    with the number of teams that carry its identifier. *)
Lemma top_institutions_perm typed institutions :
  NoDup (map Institution_ID institutions) ->
  (forall it, In it typed ->
     exists inst, In inst institutions /\ Institution_ID inst = fst it) ->
  (forall inst, In inst institutions ->
     In (Institution_ID inst) (map fst typed)) ->
  Permutation (top_institutions typed institutions)
    (map (fun inst => (inst, count_occ Nat.eq_dec (map fst typed)
                               (Institution_ID inst)))
       institutions).
Proof.
  intros Hnd Hteams Hinsts. unfold top_institutions, value_counts.
  set (ids := map fst typed).
  set (g := fun i => (i, count_occ Nat.eq_dec ids i)).
  rewrite sort_by_count_perm. unfold merge_counts.
  rewrite (Permutation_flat_map _ (sort_by_count_perm (map g (distinct ids)))).
  assert (Hperm : Permutation (distinct ids) (map Institution_ID institutions)).
  { apply NoDup_Permutation; auto using distinct_NoDup.
    intros i. rewrite distinct_In. split.
    - intros Hi. unfold ids in Hi. apply in_map_iff in Hi.
      destruct Hi as (it & <- & Hit).
      destruct (Hteams it Hit) as (inst & Hin & <-). now apply in_map.
    - intros Hi. apply in_map_iff in Hi. destruct Hi as (inst & <- & Hin).
      now apply Hinsts. }
  rewrite (Permutation_flat_map _ (Permutation_map g Hperm)).
  rewrite !flat_map_over_map.
  rewrite (flat_map_singletons _
             (fun inst => (inst, count_occ Nat.eq_dec ids (Institution_ID inst)))).
  - reflexivity.
  - intros inst Hin. simpl. now rewrite (filter_by_id _ _ Hnd Hin).
Qed.

Lemma nunique_positive typed n :
  In n (nunique_per_institution typed) -> 1 <= n.
Proof.
  unfold nunique_per_institution. intros H. apply in_map_iff in H.
  destruct H as (i & <- & Hi). apply (proj1 (distinct_In _ _)) in Hi.
  apply in_map_iff in Hi. destruct Hi as (it & Hfst & Hit).
  assert (Hin : In (t_Team_Number (snd it))
                  (nodup Z.eq_dec
                     (map (fun it => t_Team_Number (snd it))
                        (filter (fun it => Nat.eqb (fst it) i) typed)))).
  { apply nodup_In. apply in_map_iff. exists it. split; auto.
    apply filter_In. split; auto. apply Nat.eqb_eq. exact Hfst. }
  destruct (nodup _ _); simpl in *; [tauto | lia].
Qed.

Lemma list_sum_at_least l :
  (forall n, In n l -> 1 <= n) -> List.length l <= list_sum l.
Proof.
  induction l as [|a l IH]; simpl; intros H; auto.
  assert (1 <= a) by (apply H; now left).
  assert (List.length l <= list_sum l) by (apply IH; auto). lia.
Qed.

(** The average is raised on no team at all, and at least 1 otherwise. *)
Lemma avg_teams_per_institution_spec typed :
  (typed = [] -> avg_teams_per_institution typed = None)
  /\ (typed <> [] ->
      exists average,
        avg_teams_per_institution typed = Some average /\ 1 <= average).
Proof.
  split.
  - intros ->. reflexivity.
  - intros Hne. unfold avg_teams_per_institution.
    pose proof (nunique_positive typed) as Hpos.
    pose proof (list_sum_at_least (nunique_per_institution typed) Hpos) as Hsum.
    destruct (nunique_per_institution typed) as [|n counts] eqn:E.
    + exfalso. unfold nunique_per_institution in E.
      apply map_eq_nil in E.
      destruct typed as [|it typed]; [congruence|].
      assert (H : In (fst it) (distinct (map fst (it :: typed))))
        by (apply distinct_In; now left).
      rewrite E in H. destruct H.
    + eexists. split; [reflexivity|].
      apply Nat.div_le_lower_bound; [simpl; lia|]. lia.
Qed.

Section Reports.

Variable extractOne : string -> list string -> option (string * Z).
Variable data_2015 : DataFrame.
Hypothesis answers : oracle_ok extractOne.
Hypothesis header : issubset required_columns (columns data_2015) = true.

Hypothesis records : rows data_2015 <> [].

Lemma report_of_records :
  exists teams institutions typed rep,
    save_csv extractOne (Some data_2015) = inr (Some (teams, institutions))
    /\ astype_int teams = Some typed
    /\ get_statistical_analysis_file teams institutions = inr rep
    /\ r_top rep = top_institutions typed institutions
    /\ r_outstanding rep = outstanding_institutions_list typed institutions
    /\ r_us_teams rep = us_teams_meritorious_or_better typed institutions
    /\ map snd typed = teams
    /\ List.length typed = List.length (rows data_2015)
    /\ NoDup (map Institution_ID institutions)
    /\ (forall it, In it typed ->
          t_Institution_ID (snd it) = Some (fst it)
          /\ exists inst, In inst institutions /\ Institution_ID inst = fst it)
    /\ (forall inst, In inst institutions ->
          In (Institution_ID inst) (map fst typed)).
Proof.
  destruct (statistics_context extractOne data_2015 answers header)
    as (teams & institutions & typed & Hsave & Htyped & Hsnd & Hlen & Hnd
        & Hteams & Hinsts).
  destruct (proj2 (avg_teams_per_institution_spec typed)) as (average & Havg & _).
  { intros ->. simpl in Hlen. symmetry in Hlen.
    apply length_zero_iff_nil in Hlen. contradiction. }
  exists teams, institutions, typed.
  unfold get_statistical_analysis_file. rewrite Htyped, Havg.
  eexists. repeat (split; [first [reflexivity | eassumption]|]). exact Hinsts.
Qed.

(** X11. Top_Institutions.csv lists every institution of Institutions.csv
    exactly once, each with the number of teams of Teams.csv that carry its
    identifier, which is at least 1; the lines are in descending order of
    that number, and the numbers add up to the number of records of the
    input. *)
Theorem top_institutions_table :
  exists teams institutions rep,
    save_csv extractOne (Some data_2015) = inr (Some (teams, institutions))
    /\ get_statistical_analysis_file teams institutions = inr rep
    /\ Permutation (r_top rep)
         (map (fun inst =>
                 (inst,
                  List.length
                    (filter (fun t =>
                               match t_Institution_ID t with
                               | Some i => Nat.eqb i (Institution_ID inst)
                               | None => false
                               end) teams)))
            institutions)
    /\ Sorted (fun a b => snd b <= snd a) (r_top rep)
    /\ list_sum (map snd (r_top rep)) = List.length (rows data_2015)
    /\ (forall line, In line (r_top rep) -> 1 <= snd line).
Proof.
  destruct report_of_records
    as (teams & institutions & typed & rep & Hsave & Htyped & Hrep & Htop & _ & _
        & Hsnd & Hlen & Hnd & Hteams & Hinsts).
  exists teams, institutions, rep. split; [exact Hsave|]. split; [exact Hrep|].
  pose proof (top_institutions_perm typed institutions Hnd
                (fun it Hit => proj2 (Hteams it Hit)) Hinsts) as Hperm.
  rewrite <- Htop in Hperm.
  assert (Hcount : forall i,
            count_occ Nat.eq_dec (map fst typed) i
            = List.length
                (filter (fun t => match t_Institution_ID t with
                                  | Some j => Nat.eqb j i
                                  | None => false
                                  end) teams)).
  { intros i. rewrite <- Hsnd.
    assert (Hall : forall it, In it typed ->
              t_Institution_ID (snd it) = Some (fst it))
      by (intros it Hit; apply Hteams, Hit).
    clear - Hall. induction typed as [|it typed IH]; simpl; auto.
    rewrite (Hall it) by (now left).
    rewrite IH by (intros x Hx; apply Hall; now right).
    destruct (Nat.eq_dec (fst it) i) as [->|Hne].
    - now rewrite Nat.eqb_refl.
    - apply Nat.eqb_neq in Hne. now rewrite Hne. }
  split.
  { rewrite Hperm. erewrite map_ext; [reflexivity|].
    intros inst. simpl. now rewrite Hcount. }
  split.
  { rewrite Htop. apply sort_by_count_sorted. }
  split.
  { rewrite Hperm, map_map. simpl.
    rewrite <- (map_map Institution_ID (count_occ Nat.eq_dec (map fst typed))).
    rewrite count_occ_sum; auto.
    - now rewrite length_map.
    - intros i Hi. apply in_map_iff in Hi. destruct Hi as (it & <- & Hit).
      destruct (proj2 (Hteams it Hit)) as (inst & Hin & <-). now apply in_map. }
  intros line Hline. apply (Permutation_in _ Hperm) in Hline.
  apply in_map_iff in Hline. destruct Hline as (inst & <- & Hin). simpl.
  apply Hinsts in Hin. apply (count_occ_In Nat.eq_dec) in Hin. lia.
Qed.

(** X12. Outstanding_Institutions.csv holds exactly the institutions with a
    team whose cleaned ranking is 'Outstanding winner', each once, in
    ascending order of name. *)
Theorem outstanding_institutions_table :
  exists teams institutions rep,
    save_csv extractOne (Some data_2015) = inr (Some (teams, institutions))
    /\ get_statistical_analysis_file teams institutions = inr rep
    /\ (forall inst,
          In inst (r_outstanding rep)
          <-> In inst institutions
              /\ exists t, In t teams
                           /\ t_Institution_ID t = Some (Institution_ID inst)
                           /\ t_Ranking t = "Outstanding winner")
    /\ NoDup (r_outstanding rep)
    /\ Sorted (fun a b => name_leb (Institution_Name a) (Institution_Name b)
                          = true)
         (r_outstanding rep).
Proof.
  destruct report_of_records
    as (teams & institutions & typed & rep & Hsave & Htyped & Hrep & _ & Hout & _
        & Hsnd & Hlen & Hnd & Hteams & Hinsts).
  exists teams, institutions, rep. split; [exact Hsave|]. split; [exact Hrep|].
  rewrite Hout. unfold outstanding_institutions_list.
  set (kept := filter (fun inst => existsb (Nat.eqb (Institution_ID inst))
                                     (outstanding_institutions typed))
                 institutions).
  split; [|split].
  - intros inst. split.
    + intros H. apply (Permutation_in _ (sort_by_name_perm kept)) in H.
      apply filter_In in H. destruct H as [Hin Hex]. split; auto.
      apply existsb_exists in Hex. destruct Hex as (i & Hi & Heq).
      apply Nat.eqb_eq in Heq. subst i.
      apply (proj1 (distinct_In _ _)) in Hi. apply in_map_iff in Hi.
      destruct Hi as (it & Hfst & Hit). apply filter_In in Hit.
      destruct Hit as [Hit Hrank]. apply String.eqb_eq in Hrank.
      exists (snd it). split; [|split; auto].
      * rewrite <- Hsnd. now apply in_map.
      * rewrite <- Hfst. now apply Hteams.
    + intros (Hin & t & Ht & Hid & Hrank).
      apply (Permutation_in _ (Permutation_sym (sort_by_name_perm kept))).
      apply filter_In. split; auto.
      apply existsb_exists. exists (Institution_ID inst).
      split; [|apply Nat.eqb_refl].
      apply distinct_In. rewrite <- Hsnd in Ht. apply in_map_iff in Ht.
      destruct Ht as (it & <- & Hit). apply in_map_iff. exists it. split.
      * pose proof (proj1 (Hteams it Hit)) as H. congruence.
      * apply filter_In. split; auto. now apply String.eqb_eq.
  - apply (Permutation_NoDup (Permutation_sym (sort_by_name_perm kept))).
    apply NoDup_filter. now apply NoDup_map_inv in Hnd.
  - apply sort_by_name_sorted.
Qed.

(** X13. US_Teams_Meritorious_or_Better.csv holds exactly the teams whose
    cleaned ranking is 'Outstanding winner' or 'Meritorious' and whose
    institution is listed in Institutions.csv with the country 'USA',
    spelt so; the country is the institution's, not the team's own
    record's. *)
Theorem us_teams_table :
  exists teams institutions rep,
    save_csv extractOne (Some data_2015) = inr (Some (teams, institutions))
    /\ get_statistical_analysis_file teams institutions = inr rep
    /\ forall i t country,
         In (i, t, country) (r_us_teams rep)
         <-> In t teams
             /\ t_Institution_ID t = Some i
             /\ country = Some "USA"
             /\ (exists inst, In inst institutions
                              /\ Institution_ID inst = i
                              /\ i_Country inst = "USA")
             /\ (t_Ranking t = "Outstanding winner"
                 \/ t_Ranking t = "Meritorious").
Proof.
  destruct report_of_records
    as (teams & institutions & typed & rep & Hsave & Htyped & Hrep & _ & _ & Hus
        & Hsnd & Hlen & Hnd & Hteams & Hinsts).
  exists teams, institutions, rep. split; [exact Hsave|]. split; [exact Hrep|].
  rewrite Hus. unfold us_teams_meritorious_or_better, team_df_with_country.
  assert (Hrank : forall r,
            existsb (String.eqb r) ["Outstanding winner"; "Meritorious"] = true
            <-> r = "Outstanding winner" \/ r = "Meritorious").
  { intros r. simpl. rewrite !orb_true_iff, !String.eqb_eq. intuition congruence. }
  intros i t country. rewrite filter_In, in_flat_map. cbn [fst snd]. split.
  - intros [(it & Hit & Hx) Hkeep].
    destruct (Hteams it Hit) as (Hid & inst & Hin & Hinst).
    assert (Hmem : In inst (filter (fun inst0 => Nat.eqb (fst it)
                                                  (Institution_ID inst0))
                              institutions)).
    { apply filter_In. split; auto. apply Nat.eqb_eq. congruence. }
    destruct (filter _ institutions) as [|f found] eqn:Ef; [destruct Hmem|].
    rewrite <- Ef in Hx. clear Hmem.
    apply in_map_iff in Hx. destruct Hx as (inst' & [= Hit' Hc'] & Hin').
    subst it country.
    apply filter_In in Hin'. destruct Hin' as [Hin' Heq].
    apply Nat.eqb_eq in Heq. cbn [fst snd] in *.
    apply andb_prop in Hkeep. destruct Hkeep as [Hc Hr].
    apply String.eqb_eq in Hc. apply Hrank in Hr.
    split; [rewrite <- Hsnd; apply in_map_iff; exists (i, t); auto|].
    split; [exact Hid|]. split; [now rewrite Hc|].
    split; [exists inst'; auto | exact Hr].
  - intros (Ht & Hid & -> & (inst & Hin & Hinst & Hc) & Hr).
    rewrite <- Hsnd in Ht. apply in_map_iff in Ht. destruct Ht as (it & <- & Hit).
    pose proof (proj1 (Hteams it Hit)) as Hid'.
    assert (Hi : fst it = i) by congruence.
    split.
    + exists it. split; [exact Hit|].
      assert (Hmem : In inst (filter (fun inst0 => Nat.eqb (fst it)
                                                    (Institution_ID inst0))
                                institutions)).
      { apply filter_In. split; auto. apply Nat.eqb_eq. congruence. }
      destruct (filter _ institutions) as [|f found] eqn:Ef; [destruct Hmem|].
      apply in_map_iff. exists inst. split; auto.
      destruct it as [j u]. cbn [fst snd] in *. subst j. now rewrite Hc.
    + rewrite String.eqb_refl. cbn [andb]. now apply Hrank.
Qed.

End Reports.

(** ** The command loop *)

Lemma issubset_spec required header :
  issubset required header = true <-> (forall c, In c required -> In c header).
Proof.
  unfold issubset. rewrite forallb_forall. split; intros H c Hc.
  - specialize (H c Hc). apply existsb_exists in H.
    destruct H as (x & Hx & Heq). apply String.eqb_eq in Heq. now subst.
  - apply existsb_exists. exists c. split; auto. apply String.eqb_refl.
Qed.

Section MainFacts.

Variable extractOne : string -> list string -> option (string * Z).
Variable read_csv : string -> option DataFrame.

(** A file that [save_csv] gives up on: it cannot be read, or its table
    lacks a required column. *)
Lemma save_csv_gives_up file_path :
  read_csv file_path = None
  \/ (exists data column,
        read_csv file_path = Some data
        /\ In column required_columns
        /\ ~ In column (columns data)) ->
  save_csv extractOne (read_csv file_path) = inr None.
Proof.
  intros [->|(data & column & -> & Hreq & Hmiss)]; [reflexivity|].
  unfold save_csv.
  destruct (issubset required_columns (columns data)) eqn:E; [|reflexivity].
  exfalso. apply Hmiss. rewrite issubset_spec in E. auto.
Qed.

(** X14. When the file named at the prompt cannot be read or lacks a required
    column, [save_csv] returns [None] and [main] stops with the [TypeError]
    of unpacking it, whatever was to be typed next; so does the choice "1"
    when the preset file data/2015.csv is such a file. *)
Theorem main_unusable_file_TypeError (file_path : string) (rest : list string) :
  read_csv file_path = None
  \/ (exists data column,
        read_csv file_path = Some data
        /\ In column required_columns
        /\ ~ In column (columns data)) ->
  process extractOne read_csv file_path = inl (Error TypeError)
  /\ (file_path <> "1" -> file_path <> "2" ->
      main extractOne read_csv (file_path :: rest) = ([], inl (Error TypeError)))
  /\ (file_path = "data/2015.csv" ->
      main extractOne read_csv ("1" :: rest) = ([], inl (Error TypeError))).
Proof.
  intros Hbad.
  assert (Hp : process extractOne read_csv file_path = inl (Error TypeError)).
  { unfold process. now rewrite (save_csv_gives_up _ Hbad). }
  split; [exact Hp|]. split.
  - intros H1 H2. apply String.eqb_neq in H1, H2.
    cbn [main]. now rewrite H1, H2, Hp.
  - intros ->. cbn [main]. rewrite String.eqb_refl. now rewrite Hp.
Qed.


(** X16. As long as every line typed is a path, other than "1" and "2",
    that is processed without an exception, [main] processes each of them,
    in order, and goes on prompting: it ends without an exception at a
    following line "2", and with [EOFError] when the lines run out. *)
Theorem main_keeps_prompting (paths unread : list string) :
  (forall p, In p paths ->
     p <> "1" /\ p <> "2"
     /\ exists rep, process extractOne read_csv p = inr rep) ->
  exists done,
    map fst done = paths
    /\ (forall p rep, In (p, rep) done ->
          process extractOne read_csv p = inr rep)
    /\ main extractOne read_csv (paths ++ "2" :: unread) = (done, inr tt)
    /\ main extractOne read_csv paths = (done, inl EOFError).
Proof.
  induction paths as [|p paths IH]; intros Hall.
  - exists []. repeat split. intros p rep [].
  - destruct (Hall p (or_introl eq_refl)) as (H1 & H2 & rep & Hrep).
    destruct IH as (done & Hd & Hdone & Hquit & Heof).
    { intros q Hq. apply Hall. now right. }
    apply String.eqb_neq in H1, H2.
    exists ((p, rep) :: done). simpl. rewrite H1, H2, Hrep, Hquit, Heof, Hd.
    repeat split.
    intros q r [[= <- <-]|Hin]; [exact Hrep | now apply Hdone].
Qed.

(** X10. A file that has the required columns and no record at all: with
    whatever matcher, [save_csv] returns two empty tables and
    [get_statistical_analysis_file] then raises [ValueError], the mean over
    no institution being no number; [main] stops with that exception at
    the line that names the file. *)
Theorem no_record_ValueError (file_path : string) (data : DataFrame)
  (rest : list string) :
  read_csv file_path = Some data ->
  issubset required_columns (columns data) = true ->
  rows data = [] ->
  save_csv extractOne (Some data) = inr (Some ([], []))
  /\ get_statistical_analysis_file [] [] = inl ValueError
  /\ process extractOne read_csv file_path = inl ValueError
  /\ (file_path <> "1" -> file_path <> "2" ->
      main extractOne read_csv (file_path :: rest) = ([], inl ValueError))
  /\ (file_path = "data/2015.csv" ->
      main extractOne read_csv ("1" :: rest) = ([], inl ValueError)).
Proof.
  intros Hread Hheader Hrows.
  assert (Hsave : save_csv extractOne (Some data) = inr (Some ([], []))).
  { unfold save_csv, cleaned_data. rewrite Hheader, Hrows. reflexivity. }
  assert (Hp : process extractOne read_csv file_path = inl ValueError).
  { unfold process. rewrite Hread, Hsave. reflexivity. }
  split; [exact Hsave|]. split; [reflexivity|]. split; [exact Hp|]. split.
  - intros H1 H2. apply String.eqb_neq in H1, H2.
    cbn [main]. now rewrite H1, H2, Hp.
  - intros ->. cbn [main]. rewrite String.eqb_refl. now rewrite Hp.
Qed.

End MainFacts.

(** ** More on the grouping pass *)

Lemma keys_set_In k a b d : In k (keys (set a b d)) <-> k = a \/ In k (keys d).
Proof.
  split.
  - intros Hk. destruct (string_dec k a) as [->|Hne]; auto.
    destruct (keys_get _ _ Hk) as [v Hv].
    rewrite get_set_other in Hv by assumption.
    right. eapply get_keys; eauto.
  - intros [->|Hk].
    + eapply get_keys. apply get_set_same.
    + destruct (string_dec k a) as [->|Hne].
      * eapply get_keys. apply get_set_same.
      * destruct (keys_get _ _ Hk) as [v Hv].
        eapply get_keys. rewrite get_set_other; eauto.
Qed.

Lemma get_value k v d : get k d = Some v -> In v (values d).
Proof.
  intros H. apply get_In in H. change v with (snd (k, v)). now apply in_map.
Qed.

Lemma values_set_In v a b d : In v (values (set a b d)) -> v = b \/ In v (values d).
Proof.
  induction d as [|[k' v'] d IH]; simpl.
  - intros [<-|[]]. now left.
  - destruct (String.eqb a k'); simpl; intuition auto.
Qed.

Lemma nodup_constant (a : string) l :
  l <> [] -> (forall v, In v l -> v = a) -> nodup string_dec l = [a].
Proof.
  induction l as [|x l IH]; [congruence|]. intros _ Hall. simpl.
  assert (x = a) by (apply Hall; now left). subst x.
  destruct l as [|y l].
  - reflexivity.
  - destruct (in_dec string_dec a (y :: l)) as [Hin|Hout].
    + apply IH; [discriminate|]. intros v Hv. apply Hall. now right.
    + exfalso. apply Hout. left. apply Hall. right. now left.
Qed.

Section ScoresBelow.

Variable extractOne : string -> list string -> option (string * Z).
Variable threshold : Z.
Hypothesis answers :
  forall q cs, cs <> [] -> extractOne q cs <> None.
Hypothesis low :
  forall q cs m s, extractOne q cs = Some (m, s) -> (s <= threshold)%Z.

Lemma loop_body_keeps_alone n gn :
  exists asked, loop_body extractOne threshold n gn = (asked, inr (set n n gn)).
Proof.
  unfold loop_body. destruct (truthy gn) eqn:Ht; [|eauto].
  apply truthy_keys in Ht. pose proof (answers n (keys gn) Ht) as Hans.
  destruct (extractOne n (keys gn)) as [[m s]|] eqn:E; [|congruence].
  apply low in E. replace (s >? threshold)%Z with false; [eauto|].
  symmetry. rewrite Z.gtb_ltb. now apply Z.ltb_ge.
Qed.

Lemma for_loop_keeps_alone names :
  forall gn log,
    (forall k v, get k gn = Some v -> v = k) ->
    exists log' gn',
      for_loop extractOne threshold names gn log = (log', inr gn')
      /\ (forall k v, get k gn' = Some v ->
            v = k /\ (In k names \/ In k (keys gn)))
      /\ (forall k, In k names \/ In k (keys gn) -> get k gn' = Some k).
Proof.
  induction names as [|n rest IH]; intros gn log Hid; simpl.
  - exists log, gn. split; [reflexivity|]. split.
    + intros k v Hk. split; [eauto|]. right. eapply get_keys; eauto.
    + intros k [[]|Hk]. destruct (keys_get _ _ Hk) as [v Hv].
      now rewrite Hv, (Hid _ _ Hv).
  - destruct (loop_body_keeps_alone n gn) as [asked ->].
    destruct (IH (set n n gn) (log ++ asked)) as (log' & gn' & Hrun & Hval & Hkey).
    + intros k v. destruct (string_dec k n) as [->|Hne].
      * rewrite get_set_same. congruence.
      * rewrite get_set_other by assumption. apply Hid.
    + exists log', gn'. split; [exact Hrun|]. split.
      * intros k v Hk. destruct (Hval k v Hk) as [-> Hin]. split; auto.
        rewrite keys_set_In in Hin. intuition auto.
      * intros k Hk. apply Hkey. rewrite keys_set_In. intuition auto.
Qed.

(** X17. When no score of the matcher exceeds the threshold, as with a
    threshold of 100 and scores of at most 100, the pass merges nothing:
    whatever the names, every name is grouped under itself. *)
Theorem scores_within_threshold_merge_nothing (names : list string) :
  exists log gn,
    group_names extractOne threshold names = (log, inr gn)
    /\ (forall n, In n names -> get n gn = Some n)
    /\ (forall k v, get k gn = Some v -> v = k /\ In k names).
Proof.
  destruct (for_loop_keeps_alone names [] []) as (log & gn & Hrun & Hval & Hkey).
  - intros k v. discriminate.
  - exists log, gn. split; [exact Hrun|]. split.
    + intros n Hn. apply Hkey. now left.
    + intros k v Hk. destruct (Hval k v Hk) as [-> [Hin|[]]]. auto.
Qed.

End ScoresBelow.

Section ScoresAbove.

Variable extractOne : string -> list string -> option (string * Z).
Variable threshold : Z.
Hypothesis answers : oracle_ok extractOne.
Hypothesis high :
  forall q cs m s, extractOne q cs = Some (m, s) -> (threshold < s)%Z.

Lemma for_loop_joins_first first names :
  forall gn log,
    get first gn = Some first ->
    (forall v, In v (values gn) -> v = first) ->
    exists log' gn',
      for_loop extractOne threshold names gn log = (log', inr gn')
      /\ (forall v, In v (values gn') -> v = first)
      /\ (forall k, In k names \/ In k (keys gn) -> get k gn' = Some first).
Proof.
  induction names as [|n rest IH]; intros gn log Hfirst Hall; simpl.
  - exists log, gn. split; [reflexivity|]. split; [exact Hall|].
    intros k [[]|Hk]. destruct (keys_get _ _ Hk) as [v Hv].
    rewrite Hv. f_equal. apply Hall. eapply get_value; eauto.
  - assert (Hbody : exists asked,
              loop_body extractOne threshold n gn
              = (asked, inr (set n first gn))).
    { unfold loop_body.
      assert (Ht : truthy gn = true).
      { destruct gn; [discriminate | reflexivity]. }
      rewrite Ht. apply truthy_keys in Ht.
      destruct (answers n (keys gn) Ht) as (m & s & E & Hin). rewrite E.
      apply high in E. replace (s >? threshold)%Z with true
        by (symmetry; apply Z.gtb_lt; lia).
      destruct (keys_get _ _ Hin) as [c Hc]. rewrite Hc.
      rewrite (Hall c) by (eapply get_value; eauto). eauto. }
    destruct Hbody as [asked ->].
    destruct (IH (set n first gn) (log ++ asked)) as (log' & gn' & Hrun & Hval & Hkey).
    + destruct (string_dec first n) as [->|Hne].
      * apply get_set_same.
      * now rewrite get_set_other.
    + intros v Hv. apply values_set_In in Hv. destruct Hv; auto.
    + exists log', gn'. split; [exact Hrun|]. split; [exact Hval|].
      intros k Hk. apply Hkey. rewrite keys_set_In. intuition auto.
Qed.

(** X18. When every score of the matcher exceeds the threshold, as with a
    negative threshold and scores of at least 0, the pass puts all the
    names in one cluster, named after the first of them. *)
Theorem scores_above_threshold_one_cluster (first : string)
  (rest : list string) :
  exists log gn,
    group_names extractOne threshold (first :: rest) = (log, inr gn)
    /\ (forall n, In n (first :: rest) -> get n gn = Some first)
    /\ cluster_count gn = 1.
Proof.
  unfold group_names. cbn [for_loop]. unfold loop_body. cbn [truthy set app].
  destruct (for_loop_joins_first first rest [(first, first)] [])
    as (log & gn & Hrun & Hval & Hkey).
  - simpl. now rewrite String.eqb_refl.
  - intros v [<-|[]]. reflexivity.
  - exists log, gn. split; [exact Hrun|]. split.
    + intros n [<-|Hn]; apply Hkey; [right; simpl; auto | now left].
    + unfold cluster_count. rewrite (nodup_constant first); [reflexivity| |].
      * assert (H : get first gn = Some first)
          by (apply Hkey; right; simpl; auto).
        apply get_value in H. intros Hnil. rewrite Hnil in H. destruct H.
      * exact Hval.
Qed.

End ScoresAbove.

Lemma calls_from_In names :
  forall seen q cs,
    In (q, cs) (calls_from seen names) ->
    In q names /\ cs <> [] /\ (forall x, In x seen -> In x cs).
Proof.
  induction names as [|n rest IH]; intros seen q cs; simpl; [tauto|].
  destruct seen as [|s seen].
  - intros H. destruct (IH _ _ _ H) as (Hq & Hcs & Hseen). repeat split; auto.
    intros x [].
  - intros [[= <- <-]|H].
    + repeat split; auto. discriminate.
    + destruct (IH _ _ _ H) as (Hq & Hcs & Hseen). repeat split; auto.
      intros x Hx. apply Hseen. apply in_or_app. now left.
Qed.

Lemma calls_from_size names :
  forall seen,
    seen <> [] ->
    List.length (calls_from seen names) = List.length names
    /\ 2 * list_sum (map (fun c => List.length (snd c)) (calls_from seen names))
       = 2 * List.length names * List.length seen
         + List.length names * (List.length names - 1).
Proof.
  induction names as [|n rest IH]; intros seen Hseen; [simpl; lia|].
  destruct seen as [|s seen]; [congruence|].
  destruct (IH ((s :: seen) ++ [n])) as [Hlen Hsum]; [discriminate|].
  rewrite length_app in Hsum.
  cbn [calls_from]. cbn [List.length map list_sum snd] in *.
  split; [now rewrite Hlen|].
  set (total := list_sum _) in *. set (m := List.length rest) in *.
  set (k := List.length seen) in *.
  destruct m as [|m']; simpl in *; nia.
Qed.

Section WholeColumn.

Variable extractOne : string -> list string -> option (string * Z).
Variable threshold : Z.
Hypothesis answers : oracle_ok extractOne.

(** X19. With a matcher that answers, [fuzzy_grouping] raises nothing on any
    column, duplicates included; the new column is the old one looked up
    in one dictionary, so that equal names get equal group names, no cell
    is left missing, and every group name is a name of the column that is
    grouped under itself. *)
Theorem grouped_column_complete (column : list string) :
  exists log gn,
    fuzzy_grouping extractOne threshold column
    = (log, inr (map (fun x => get x gn) column))
    /\ forall x, In x column ->
         exists c, get x gn = Some c /\ In c column /\ get c gn = Some c.
Proof.
  destruct (fuzzy_grouping_shape extractOne threshold column answers)
    as (gn & Hrun & Hk & Hfix & Hfg & Hall).
  exists (calls_from [] (unique column)), gn. split; [exact Hfg|].
  intros x Hx. destruct (Hall x Hx) as [c Hc]. exists c.
  pose proof (Hfix _ _ Hc) as Hcc. repeat split; auto.
  apply unique_In. rewrite <- Hk. eapply get_keys; eauto.
Qed.

(** X20. The name in the first row of a column is always its own group name;
    it is never looked up by the matcher, and it is among the choices of
    every query. *)
Theorem first_row_names_its_group (x : string) (column : list string) :
  exists log out,
    fuzzy_grouping extractOne threshold (x :: column)
    = (log, inr (Some x :: out))
    /\ forall q cs, In (q, cs) log -> q <> x /\ In x cs.
Proof.
  destruct (fuzzy_grouping_shape extractOne threshold (x :: column) answers)
    as (gn & Hrun & Hk & Hfix & Hfg & Hall).
  assert (Hu : unique (x :: column) = x :: unique_from [x] column) by reflexivity.
  pose proof (unique_NoDup (x :: column)) as Hnd. rewrite Hu in Hnd.
  destruct (group_names_entry extractOne threshold answers [] x
              (unique_from [x] column) Hnd)
    as (gpre & v & log & gn' & Hpre & Hkpre & _ & Hv & Hall' & _ & Hget).
  destruct gpre as [|kv gpre]; [|discriminate].
  unfold chosen in Hv. simpl in Hv. injection Hv as <-.
  simpl app in Hall'. rewrite <- Hu, Hrun in Hall'. injection Hall' as _ <-.
  exists (calls_from [] (unique (x :: column))),
         (map (fun y => get y gn) column).
  split.
  - rewrite Hfg. simpl map. now rewrite Hget.
  - rewrite Hu. simpl. intros q cs Hq.
    destruct (calls_from_In _ _ _ _ Hq) as (Hin & _ & Hseen). split.
    + intros ->. inversion Hnd. tauto.
    + apply Hseen. now left.
Qed.

(** X21. Over distinct names the pass makes one query for every name but the
    first, and the lists of choices it hands to the matcher hold n(n-1)/2
    names in all, for n names. *)
Theorem one_query_per_later_name (names : list string) :
  NoDup names ->
  exists log gn,
    group_names extractOne threshold names = (log, inr gn)
    /\ List.length log = List.length names - 1
    /\ 2 * list_sum (map (fun c => List.length (snd c)) log)
       = List.length names * (List.length names - 1).
Proof.
  intros Hnd.
  destruct (group_names_prefix extractOne threshold answers names [])
    as (gn & tail & Hrun & _); [now rewrite app_nil_r|].
  exists (calls_from [] names), gn. split; [exact Hrun|].
  destruct names as [|n rest]; [simpl; lia|].
  cbn [calls_from].
  destruct (calls_from_size rest [n]) as [Hlen Hsum]; [discriminate|].
  rewrite Hlen, Hsum. cbn [List.length]. split; [lia|].
  destruct (List.length rest); simpl; nia.
Qed.

End WholeColumn.

(** ** The required columns *)

(** X22. The columns that line 78 reports as missing are the required
    columns that the header lacks, and on a table that was read [save_csv]
    returns [None] exactly when there is one: the order of the columns and
    the other columns of the file do not count. *)
Theorem missing_columns_reported
  (extractOne : string -> list string -> option (string * Z))
  (data : DataFrame) :
  (forall c, In c (missing_columns (columns data))
             <-> In c required_columns /\ ~ In c (columns data))
  /\ (save_csv extractOne (Some data) = inr None
      <-> missing_columns (columns data) <> []).
Proof.
  assert (Hmem : forall c, In c (missing_columns (columns data))
                           <-> In c required_columns /\ ~ In c (columns data)).
  { intros c. unfold missing_columns. rewrite filter_In, negb_true_iff.
    split; intros [Hreq Hmiss]; split; auto.
    - intros Hin. assert (existsb (String.eqb c) (columns data) = true);
        [|congruence].
      apply existsb_exists. exists c. split; auto. apply String.eqb_refl.
    - destruct (existsb (String.eqb c) (columns data)) eqn:E; auto.
      apply existsb_exists in E. destruct E as (x & Hx & Heq).
      apply String.eqb_eq in Heq. subst x. tauto. }
  split; [exact Hmem|]. split.
  - intros Hnone Hnil.
    assert (Hsub : issubset required_columns (columns data) = true).
    { apply issubset_spec. intros c Hc.
      destruct (in_dec string_dec c (columns data)) as [Hin|Hout]; auto.
      assert (H : In c (missing_columns (columns data))) by (apply Hmem; auto).
      rewrite Hnil in H. destruct H. }
    unfold save_csv in Hnone. rewrite Hsub in Hnone. simpl in Hnone.
    destruct (cleaned_data extractOne (rows data)); discriminate.
  - intros Hne. destruct (missing_columns (columns data)) as [|c l] eqn:E;
      [congruence|].
    assert (Hc : In c (c :: l)) by (now left).
    apply Hmem in Hc. destruct Hc as [Hreq Hmiss]. unfold save_csv.
    destruct (issubset required_columns (columns data)) eqn:Es; [|reflexivity].
    exfalso. apply Hmiss. rewrite issubset_spec in Es. auto.
Qed.

(** ** The score of the token-sort matcher *)

Lemma fuzz_ratio_le_100 a b : (Fuzz.ratio a b <= 100)%Z.
Proof.
  unfold Fuzz.ratio.
  set (total := Z.of_nat (String.length a + String.length b)).
  destruct (total =? 0)%Z eqn:E; [lia|].
  apply Z.eqb_neq in E. assert (0 < total)%Z by lia.
  apply Z.lt_succ_r, Z.div_lt_upper_bound; lia.
Qed.

Lemma fuzz_best_score scored c s :
  Fuzz.best scored = Some (c, s) -> In (c, s) scored.
Proof.
  revert c s. induction scored as [|[c0 s0] rest IH]; simpl; [discriminate|].
  intros c s. destruct (Fuzz.best rest) as [[c' s']|].
  - destruct (s0 <? s')%Z; intros [= <- <-]; auto.
  - intros [= <- <-]. auto.
Qed.

Lemma fuzz_score_le_100 q cs m s :
  Fuzz.extractOne q cs = Some (m, s) -> (s <= 100)%Z.
Proof.
  intros H. apply fuzz_best_score in H. apply in_map_iff in H.
  destruct H as (c & [= _ <-] & _). apply fuzz_ratio_le_100.
Qed.

(** ** Instances on a small table *)

Lemma sample_header :
  issubset required_columns (columns sample_frame) = true.
Proof. reflexivity. Qed.

Lemma sample_records : rows sample_frame <> [].
Proof. discriminate. Qed.

Lemma institutions_numbered_and_distinct_witness :
  save_csv Fuzz.extractOne (Some sample_frame)
  = inr (Some (fst sample_tables, snd sample_tables))
  /\ map Institution_ID (snd sample_tables)
     = seq 0 (List.length (snd sample_tables))
  /\ NoDup (map Institution_Name (snd sample_tables))
  /\ (forall inst, In inst (snd sample_tables) ->
        nth_error (snd sample_tables) (Institution_ID inst) = Some inst).
Proof.
  assert (Hsave : save_csv Fuzz.extractOne (Some sample_frame)
                  = inr (Some (fst sample_tables, snd sample_tables)))
    by (vm_compute; reflexivity).
  split; [exact Hsave|].
  exact (institutions_numbered_and_distinct Fuzz.extractOne sample_frame
           (fst sample_tables) (snd sample_tables) Hsave).
Defined.


Lemma every_institution_has_a_team_witness :
  oracle_ok Fuzz.extractOne
  /\ issubset required_columns (columns sample_frame) = true
  /\ (
      exists teams institutions,
        save_csv Fuzz.extractOne (Some sample_frame) = inr (Some (teams, institutions))
        /\ forall inst, In inst institutions ->
             exists t, In t teams
                       /\ t_Institution_ID t = Some (Institution_ID inst)
                       /\ t_Grouped_Institution t = Institution_Name inst).
Proof.
  split; [exact fuzz_extractOne_ok|]. split; [exact sample_header|].
  exact (every_institution_has_a_team Fuzz.extractOne sample_frame fuzz_extractOne_ok sample_header).
Defined.

Lemma same_group_same_identifier_witness :
  oracle_ok Fuzz.extractOne
  /\ issubset required_columns (columns sample_frame) = true
  /\ (
      exists log gn teams institutions (id_of : string -> option nat),
        group_names Fuzz.extractOne 89 (unique (map Institution (rows sample_frame)))
        = (log, inr gn)
        /\ save_csv Fuzz.extractOne (Some sample_frame) = inr (Some (teams, institutions))
        /\ map t_Institution_ID teams
           = map (fun r => id_of (Institution r)) (rows sample_frame)
        /\ (forall x y, get x gn = get y gn -> id_of x = id_of y)).
Proof.
  split; [exact fuzz_extractOne_ok|]. split; [exact sample_header|].
  exact (same_group_same_identifier Fuzz.extractOne sample_frame fuzz_extractOne_ok sample_header).
Defined.


Lemma no_record_ValueError_witness :
  sample_files "empty.csv" = Some {| columns := required_columns; rows := [] |}
  /\ issubset required_columns required_columns = true
  /\ save_csv Fuzz.extractOne
       (Some {| columns := required_columns; rows := [] |})
     = inr (Some ([], []))
  /\ get_statistical_analysis_file [] [] = inl ValueError
  /\ process Fuzz.extractOne sample_files "empty.csv" = inl ValueError
  /\ ("empty.csv" <> "1" -> "empty.csv" <> "2" ->
      main Fuzz.extractOne sample_files ("empty.csv" :: ["2"])
      = ([], inl ValueError))
  /\ ("empty.csv" = "data/2015.csv" ->
      main Fuzz.extractOne sample_files ("1" :: ["2"]) = ([], inl ValueError)).
Proof.
  assert (Hread : sample_files "empty.csv"
                  = Some {| columns := required_columns; rows := [] |})
    by reflexivity.
  assert (Hheader : issubset required_columns
                      (columns {| columns := required_columns; rows := [] |})
                    = true) by reflexivity.
  split; [exact Hread|]. split; [exact Hheader|].
  exact (no_record_ValueError Fuzz.extractOne sample_files "empty.csv"
           {| columns := required_columns; rows := [] |} ["2"]
           Hread Hheader eq_refl).
Defined.

Lemma top_institutions_table_witness :
  oracle_ok Fuzz.extractOne
  /\ issubset required_columns (columns sample_frame) = true
  /\ rows sample_frame <> []
  /\ (
      exists teams institutions rep,
        save_csv Fuzz.extractOne (Some sample_frame) = inr (Some (teams, institutions))
        /\ get_statistical_analysis_file teams institutions = inr rep
        /\ Permutation (r_top rep)
             (map (fun inst =>
                     (inst,
                      List.length
                        (filter (fun t =>
                                   match t_Institution_ID t with
                                   | Some i => Nat.eqb i (Institution_ID inst)
                                   | None => false
                                   end) teams)))
                institutions)
        /\ Sorted (fun a b => snd b <= snd a) (r_top rep)
        /\ list_sum (map snd (r_top rep)) = List.length (rows sample_frame)
        /\ (forall line, In line (r_top rep) -> 1 <= snd line)).
Proof.
  split; [exact fuzz_extractOne_ok|]. split; [exact sample_header|]. split; [exact sample_records|].
  exact (top_institutions_table Fuzz.extractOne sample_frame fuzz_extractOne_ok sample_header sample_records).
Defined.

Lemma outstanding_institutions_table_witness :
  oracle_ok Fuzz.extractOne
  /\ issubset required_columns (columns sample_frame) = true
  /\ rows sample_frame <> []
  /\ (
      exists teams institutions rep,
        save_csv Fuzz.extractOne (Some sample_frame) = inr (Some (teams, institutions))
        /\ get_statistical_analysis_file teams institutions = inr rep
        /\ (forall inst,
              In inst (r_outstanding rep)
              <-> In inst institutions
                  /\ exists t, In t teams
                               /\ t_Institution_ID t = Some (Institution_ID inst)
                               /\ t_Ranking t = "Outstanding winner")
        /\ NoDup (r_outstanding rep)
        /\ Sorted (fun a b => name_leb (Institution_Name a) (Institution_Name b)
                              = true)
             (r_outstanding rep)).
Proof.
  split; [exact fuzz_extractOne_ok|]. split; [exact sample_header|]. split; [exact sample_records|].
  exact (outstanding_institutions_table Fuzz.extractOne sample_frame fuzz_extractOne_ok sample_header sample_records).
Defined.

Lemma us_teams_table_witness :
  oracle_ok Fuzz.extractOne
  /\ issubset required_columns (columns sample_frame) = true
  /\ rows sample_frame <> []
  /\ (
      exists teams institutions rep,
        save_csv Fuzz.extractOne (Some sample_frame) = inr (Some (teams, institutions))
        /\ get_statistical_analysis_file teams institutions = inr rep
        /\ forall i t country,
             In (i, t, country) (r_us_teams rep)
             <-> In t teams
                 /\ t_Institution_ID t = Some i
                 /\ country = Some "USA"
                 /\ (exists inst, In inst institutions
                                  /\ Institution_ID inst = i
                                  /\ i_Country inst = "USA")
                 /\ (t_Ranking t = "Outstanding winner"
                     \/ t_Ranking t = "Meritorious")).
Proof.
  split; [exact fuzz_extractOne_ok|]. split; [exact sample_header|]. split; [exact sample_records|].
  exact (us_teams_table Fuzz.extractOne sample_frame fuzz_extractOne_ok sample_header sample_records).
Defined.

Lemma missing_columns_reported_witness :
  missing_columns ["Institution"; "City"] <> []
  /\ save_csv Fuzz.extractOne
       (Some {| columns := ["Institution"; "City"]; rows := [] |})
     = inr None.
Proof.
  assert (Hne : missing_columns
                  (columns {| columns := ["Institution"; "City"]; rows := [] |})
                <> []) by discriminate.
  split; [exact Hne|].
  exact (proj2 (proj2 (missing_columns_reported Fuzz.extractOne
                         {| columns := ["Institution"; "City"]; rows := [] |}))
           Hne).
Defined.

Lemma main_unusable_file_TypeError_witness :
  (sample_files "short.csv" = None
   \/ (exists data column,
         sample_files "short.csv" = Some data
         /\ In column required_columns
         /\ ~ In column (columns data)))
  /\ process Fuzz.extractOne sample_files "short.csv" = inl (Error TypeError)
  /\ ("short.csv" <> "1" -> "short.csv" <> "2" ->
      main Fuzz.extractOne sample_files ("short.csv" :: ["1"])
      = ([], inl (Error TypeError)))
  /\ ("short.csv" = "data/2015.csv" ->
      main Fuzz.extractOne sample_files ("1" :: ["1"])
      = ([], inl (Error TypeError))).
Proof.
  assert (Hbad : sample_files "short.csv" = None
                 \/ (exists data column,
                       sample_files "short.csv" = Some data
                       /\ In column required_columns
                       /\ ~ In column (columns data))).
  { right. exists {| columns := ["Institution"; "City"]; rows := [] |}, "Ranking".
    split; [reflexivity|]. split; [simpl; tauto|].
    simpl. intuition discriminate. }
  split; [exact Hbad|].
  exact (main_unusable_file_TypeError Fuzz.extractOne sample_files
           "short.csv" ["1"] Hbad).
Defined.


Lemma main_keeps_prompting_witness :
  (forall p, In p ["data/2015.csv"; "data/2015.csv"] ->
     p <> "1" /\ p <> "2"
     /\ exists rep, process Fuzz.extractOne sample_files p = inr rep)
  /\ exists done,
      map fst done = ["data/2015.csv"; "data/2015.csv"]
      /\ (forall p rep, In (p, rep) done ->
            process Fuzz.extractOne sample_files p = inr rep)
      /\ main Fuzz.extractOne sample_files
           (["data/2015.csv"; "data/2015.csv"] ++ "2" :: ["x"])
         = (done, inr tt)
      /\ main Fuzz.extractOne sample_files ["data/2015.csv"; "data/2015.csv"]
         = (done, inl EOFError).
Proof.
  assert (Hall : forall p, In p ["data/2015.csv"; "data/2015.csv"] ->
            p <> "1" /\ p <> "2"
            /\ exists rep, process Fuzz.extractOne sample_files p = inr rep).
  { intros p [<-|[<-|[]]];
      (split; [discriminate|]; split; [discriminate|];
       eexists; vm_compute; reflexivity). }
  split; [exact Hall|].
  exact (main_keeps_prompting Fuzz.extractOne sample_files
           ["data/2015.csv"; "data/2015.csv"] ["x"] Hall).
Defined.

Lemma scores_within_threshold_merge_nothing_witness :
  (forall q cs, cs <> [] -> Fuzz.extractOne q cs <> None)
  /\ (forall q cs m s, Fuzz.extractOne q cs = Some (m, s) -> (s <= 100)%Z)
  /\ exists log gn,
      group_names Fuzz.extractOne 100 stanford = (log, inr gn)
      /\ (forall n, In n stanford -> get n gn = Some n)
      /\ (forall k v, get k gn = Some v -> v = k /\ In k stanford).
Proof.
  assert (Hans : forall q cs, cs <> [] -> Fuzz.extractOne q cs <> None).
  { intros q cs Hcs. destruct (fuzz_extractOne_ok q cs Hcs) as (m & s & -> & _).
    discriminate. }
  split; [exact Hans|]. split; [exact fuzz_score_le_100|].
  exact (scores_within_threshold_merge_nothing Fuzz.extractOne 100 Hans
           fuzz_score_le_100 stanford).
Defined.

Lemma scores_above_threshold_one_cluster_witness :
  oracle_ok (constant_oracle 100)
  /\ (forall q cs m s,
        constant_oracle 100 q cs = Some (m, s) -> (89 < s)%Z)
  /\ exists log gn,
      group_names (constant_oracle 100) 89
        ("Stanford University" :: ["stanford university"; "MIT"])
      = (log, inr gn)
      /\ (forall n,
            In n ("Stanford University" :: ["stanford university"; "MIT"]) ->
            get n gn = Some "Stanford University")
      /\ cluster_count gn = 1.
Proof.
  assert (Hhigh : forall q cs m s,
            constant_oracle 100 q cs = Some (m, s) -> (89 < s)%Z).
  { intros q [|c cs] m s; simpl; [discriminate|]. intros [= _ <-]. lia. }
  split; [exact (constant_oracle_ok 100)|]. split; [exact Hhigh|].
  exact (scores_above_threshold_one_cluster (constant_oracle 100) 89
           (constant_oracle_ok 100) Hhigh
           "Stanford University" ["stanford university"; "MIT"]).
Defined.

Lemma grouped_column_complete_witness :
  oracle_ok Fuzz.extractOne
  /\ exists log gn,
      fuzzy_grouping Fuzz.extractOne 89 (map Institution sample_rows)
      = (log, inr (map (fun x => get x gn) (map Institution sample_rows)))
      /\ forall x, In x (map Institution sample_rows) ->
           exists c, get x gn = Some c
                     /\ In c (map Institution sample_rows)
                     /\ get c gn = Some c.
Proof.
  split; [exact fuzz_extractOne_ok|].
  exact (grouped_column_complete Fuzz.extractOne 89 fuzz_extractOne_ok
           (map Institution sample_rows)).
Defined.

Lemma first_row_names_its_group_witness :
  oracle_ok Fuzz.extractOne
  /\ exists log out,
      fuzzy_grouping Fuzz.extractOne 89
        ("Stanford University" :: ["MIT"; "stanford university"; "MIT"])
      = (log, inr (Some "Stanford University" :: out))
      /\ forall q cs, In (q, cs) log ->
           q <> "Stanford University" /\ In "Stanford University" cs.
Proof.
  split; [exact fuzz_extractOne_ok|].
  exact (first_row_names_its_group Fuzz.extractOne 89 fuzz_extractOne_ok
           "Stanford University" ["MIT"; "stanford university"; "MIT"]).
Defined.

Lemma one_query_per_later_name_witness :
  oracle_ok Fuzz.extractOne
  /\ NoDup stanford
  /\ exists log gn,
      group_names Fuzz.extractOne 89 stanford = (log, inr gn)
      /\ List.length log = List.length stanford - 1
      /\ 2 * list_sum (map (fun c => List.length (snd c)) log)
         = List.length stanford * (List.length stanford - 1).
Proof.
  split; [exact fuzz_extractOne_ok|]. split; [exact NoDup_stanford|].
  exact (one_query_per_later_name Fuzz.extractOne 89 fuzz_extractOne_ok
           stanford NoDup_stanford).
Defined.

(** The small table, through [save_csv] and the statistics. *)
Example sample_session :
  exists rep,
    main Fuzz.extractOne sample_files ["1"] = ([("data/2015.csv", rep)], inr tt)
    /\ r_average rep = 2
    /\ map Institution_Name (r_outstanding rep) = [Some "Stanford university"]
    /\ map (fun line => (Institution_Name (fst line), snd line)) (r_top rep)
       = [(Some "Stanford university", 2); (Some "Mit", 2)]
    /\ map (fun line => t_Team_Number (snd (fst line))) (r_us_teams rep)
       = [101%Z; 102%Z].
Proof.
  eexists. split; [vm_compute; reflexivity|]. repeat split.
Qed.

(** ** Institutions, clusters and names *)

(** X23. Cleaning the group names can only bring clusters together: with a
    matcher that answers, Institutions.csv has at most as many lines as the
    grouping pass formed clusters, which are at most as many as the
    distinct institution names, which are at most as many as the records. *)
Theorem institutions_at_most_clusters
  (extractOne : string -> list string -> option (string * Z))
  (data_2015 : DataFrame) :
  oracle_ok extractOne ->
  issubset required_columns (columns data_2015) = true ->
  exists log gn teams institutions,
    group_names extractOne 89 (unique (map Institution (rows data_2015)))
    = (log, inr gn)
    /\ save_csv extractOne (Some data_2015) = inr (Some (teams, institutions))
    /\ List.length institutions <= cluster_count gn
    /\ cluster_count gn
       <= List.length (unique (map Institution (rows data_2015)))
    /\ List.length (unique (map Institution (rows data_2015)))
       <= List.length (rows data_2015).
Proof.
  intros Hok Hheader.
  destruct (save_csv_shape extractOne data_2015 Hok Hheader)
    as (gn & Hrun & Hfix & Hall & Hsave & Hnd & Hids & Hnames).
  destruct (fuzzy_grouping_shape extractOne 89
              (map Institution (rows data_2015)) Hok)
    as (gn' & Hrun' & Hk & _).
  rewrite Hrun in Hrun'. injection Hrun' as <-.
  eexists _, gn, _, _. split; [exact Hrun|]. split; [exact Hsave|].
  split; [|split].
  - rewrite <- (length_map Institution_Name).
    unfold cluster_count.
    rewrite <- (length_map (fun c => Some (clean_text c))
                  (nodup string_dec (values gn))).
    apply NoDup_incl_length; [exact Hnd|].
    intros n Hn. apply Hnames in Hn. rewrite map_map in Hn.
    apply in_map_iff in Hn. destruct Hn as (r & <- & Hr). simpl.
    destruct (Hall r Hr) as [c Hc]. rewrite Hc. simpl.
    apply in_map_iff. exists c. split; auto.
    apply nodup_In. eapply get_value; eauto.
  - rewrite <- Hk. unfold cluster_count.
    apply NoDup_incl_length; [apply NoDup_nodup|].
    intros v Hv. apply nodup_In in Hv. unfold values in Hv.
    apply in_map_iff in Hv. destruct Hv as ([k v'] & <- & Hin). simpl.
    assert (Hget : get k gn = Some v').
    { apply In_get; auto. rewrite Hk. apply unique_NoDup. }
    eapply get_keys. eapply Hfix. exact Hget.
  - rewrite <- (length_map Institution (rows data_2015)).
    apply NoDup_incl_length; [apply unique_NoDup|].
    intros x Hx. now apply unique_In.
Qed.

Lemma institutions_at_most_clusters_witness :
  oracle_ok Fuzz.extractOne
  /\ issubset required_columns (columns sample_frame) = true
  /\ exists log gn teams institutions,
      group_names Fuzz.extractOne 89
        (unique (map Institution (rows sample_frame)))
      = (log, inr gn)
      /\ save_csv Fuzz.extractOne (Some sample_frame)
         = inr (Some (teams, institutions))
      /\ List.length institutions <= cluster_count gn
      /\ cluster_count gn
         <= List.length (unique (map Institution (rows sample_frame)))
      /\ List.length (unique (map Institution (rows sample_frame)))
         <= List.length (rows sample_frame).
Proof.
  split; [exact fuzz_extractOne_ok|]. split; [exact sample_header|].
  exact (institutions_at_most_clusters Fuzz.extractOne sample_frame
           fuzz_extractOne_ok sample_header).
Defined.
